(** * The chat page controller of [frontend/pages/index.js]

    A shallow embedding of the [Home] component's state, of its two handlers
    [sendMessage] and [stopGeneration], and of the part of the JavaScript
    run time they rely on (strings, [fetch], promise jobs), followed by the
    properties of the controller. *)

From Stdlib Require Import Ascii String NArith ZArith PrimFloat.
From stdpp Require Import base option list numbers.

Local Open Scope N_scope.

(** ** JavaScript strings

    A JavaScript string is a sequence of UTF-16 code units. *)

Definition code_unit := N.
Definition jsstring := list code_unit.

(** An ASCII literal of the source as a sequence of code units. *)
Definition lit (s : string) : jsstring :=
  N_of_ascii <$> list_ascii_of_string s.

(** ECMAScript [WhiteSpace] and [LineTerminator] code points, the ones
    [String.prototype.trim] strips: TAB, LF, VT, FF, CR, SP, NBSP, the
    Unicode space separators (Zs), LS, PS and ZWNBSP.  All of them are in
    the basic plane, so each is one code unit. *)
Definition is_white_space (c : code_unit) : bool :=
  (c =? 0x09) || (c =? 0x0A) || (c =? 0x0B) || (c =? 0x0C) || (c =? 0x0D)
  || (c =? 0x20) || (c =? 0xA0) || (c =? 0x1680)
  || ((0x2000 <=? c) && (c <=? 0x200A))
  || (c =? 0x2028) || (c =? 0x2029) || (c =? 0x202F) || (c =? 0x205F)
  || (c =? 0x3000) || (c =? 0xFEFF).

(** [String.prototype.trimStart] *)
Fixpoint trimStart (s : jsstring) : jsstring :=
  match s with
  | c :: s' => if is_white_space c then trimStart s' else s
  | [] => []
  end.

(** [String.prototype.trimEnd] *)
Definition trimEnd (s : jsstring) : jsstring :=
  reverse (trimStart (reverse s)).

(** [String.prototype.trim] *)
Definition trim (s : jsstring) : jsstring := trimEnd (trimStart s).

(** [ToBoolean] on a string: only the empty string is falsy. *)
Definition truthy (s : jsstring) : bool :=
  match s with [] => false | _ :: _ => true end.

(** The draft holds nothing but white space (possibly nothing at all). *)
Definition blank (s : jsstring) : bool := forallb is_white_space s.

(** ** JSON text of the request body

    [JSON.stringify] on the only shape the controller serialises: an object
    whose properties are strings. *)

Definition hex_digit (n : N) : code_unit :=
  if n <? 10 then 0x30 + n else 0x61 + (n - 10).

(** [UnicodeEscape]: a backslash, [u] and four lower-case hex digits. *)
Definition unicode_escape (c : code_unit) : jsstring :=
  [0x5C; 0x75; hex_digit (c / 4096 mod 16); hex_digit (c / 256 mod 16);
   hex_digit (c / 16 mod 16); hex_digit (c mod 16)].

Definition is_high_surrogate (c : code_unit) : bool :=
  (0xD800 <=? c) && (c <=? 0xDBFF).
Definition is_low_surrogate (c : code_unit) : bool :=
  (0xDC00 <=? c) && (c <=? 0xDFFF).

(** One code unit that is not the first half of a well-formed pair. *)
Definition quote_unit (c : code_unit) : jsstring :=
  if c =? 0x08 then lit "\b"
  else if c =? 0x09 then lit "\t"
  else if c =? 0x0A then lit "\n"
  else if c =? 0x0C then lit "\f"
  else if c =? 0x0D then lit "\r"
  else if c =? 0x22 then [0x5C; 0x22]
  else if c =? 0x5C then [0x5C; 0x5C]
  else if (c <? 0x20) || is_high_surrogate c || is_low_surrogate c
       then unicode_escape c
  else [c].

(** The body of [QuoteJSONString]: a surrogate pair is copied, anything
    else goes through [quote_unit]. *)
Fixpoint quote_units (s : jsstring) : jsstring :=
  match s with
  | [] => []
  | c :: s' =>
      match s' with
      | d :: s'' =>
          if is_high_surrogate c && is_low_surrogate d
          then c :: d :: quote_units s''
          else quote_unit c ++ quote_units s'
      | [] => quote_unit c
      end
  end.

Definition QuoteJSONString (s : jsstring) : jsstring :=
  [0x22] ++ quote_units s ++ [0x22].

Fixpoint stringify_members (ms : list (jsstring * jsstring)) : jsstring :=
  match ms with
  | [] => []
  | [(k, v)] => QuoteJSONString k ++ [0x3A] ++ QuoteJSONString v
  | (k, v) :: ms' =>
      QuoteJSONString k ++ [0x3A] ++ QuoteJSONString v ++ [0x2C]
      ++ stringify_members ms'
  end.

Definition JSON_stringify (ms : list (jsstring * jsstring)) : jsstring :=
  [0x7B] ++ stringify_members ms ++ [0x7D].

Local Close Scope N_scope.

(** ** Data model *)

(** [role] is one of the two literals ["user"] and ["bot"]. *)
Inductive Role := user | bot.

(** One cited source of an answer: [{source, score}]; [score] is a
    JavaScript number. *)
Record Source := { source : jsstring; score : float }.

(** A message object.  A property the object does not have ([undefined]
    when read) is [None]: a user message has only [role] and [text], a
    placeholder has no [sources] and no [isError]. *)
Module Msg.
Record t := mk {
  role : Role;
  id : option Z;
  text : jsstring;
  sources : option (list Source);
  isStreaming : option bool;
  isError : option bool
}.
End Msg.
Abbreviation Message := Msg.t.

(** [{ role: "user", text }] *)
Definition userMessage (text : jsstring) : Message :=
  Msg.mk user None text None None None.

(** [{ role: "bot", id, text: '', isStreaming: true }] *)
Definition placeholder (id : Z) : Message :=
  Msg.mk bot (Some id) [] None (Some true) None.

(** [m.id === id] for a number [id]: an absent [id] is not equal to it. *)
Definition id_matches (id : Z) (m : Message) : bool :=
  match Msg.id m with
  | Some i => (i =? id)%Z
  | None => false
  end.

(** The parsed body of a reply of the endpoint: [{answer, sources}]. *)
Module Data.
Record t := mk { answer : jsstring; sources : list Source }.
End Data.

(** What the controller reads of a [Response]: [res.ok] is derived from
    the status. *)
Record Response := { status : Z }.

Definition ok (res : Response) : bool :=
  ((200 <=? status res) && (status res <=? 299))%Z.

(** A thrown value; the handler reads only [err.name] (the message goes
    to [console.error] and nowhere else). *)
Record JsError := { name : jsstring }.

Definition AbortError : JsError := {| name := lit "AbortError" |}.
(** [new Error(...)]: the name of a plain [Error] is ["Error"]. *)
Definition ServerError : JsError := {| name := lit "Error" |}.

Definition is_abort (err : JsError) : bool :=
  bool_decide (name err = lit "AbortError").

(** How a promise settles. *)
Inductive Settled (A : Type) :=
| Fulfilled (a : A)
| Rejected (err : JsError).
Arguments Fulfilled {A} a.
Arguments Rejected {A} err.

(** ** The page and its run time *)

(** An [AbortController] is known by the order of its allocation. *)
Definition controller := nat.

(** The argument of the one [fetch] call. *)
Record Request := {
  url : jsstring;
  method : jsstring;
  headers : list (jsstring * jsstring);
  body : jsstring;
  signal : controller
}.

(** An activation of [sendMessage] suspended at one of its two [await]s:
    the [id] it captured, the controller whose signal its [fetch] was given,
    and where it waits. *)
Inductive AwaitPoint := AwaitFetch | AwaitJson.

Record Activation := {
  act_id : Z;
  act_signal : controller;
  act_at : AwaitPoint
}.

(** A promise reaction waiting in the job queue: the activation to
    resume and the settlement it resumes with. *)
Inductive Job :=
| ResumeFetch (a : Activation) (r : Settled Response)
| ResumeJson (a : Activation) (r : Settled Data.t).

(** The five pieces of state the controller uses ([input], [messages],
    [isStreaming], [error], [abortRef.current]) and the run time around
    them: the suspended activations, the job queue and the requests sent
    so far (oldest first). *)
Record ChatState := {
  input : jsstring;
  messages : list Message;
  isStreaming : bool;
  error : option jsstring;
  abortRef : option controller;
  pending : list Activation;
  jobs : list Job;
  network : list Request
}.

(** The state of a freshly mounted page. *)
Definition initial : ChatState :=
  {| input := []; messages := []; isStreaming := false; error := None;
     abortRef := None; pending := []; jobs := []; network := [] |}.

(** *** State setters *)

Definition setInput (v : jsstring) (st : ChatState) : ChatState :=
  {| input := v; messages := messages st; isStreaming := isStreaming st;
     error := error st; abortRef := abortRef st; pending := pending st;
     jobs := jobs st; network := network st |}.

(** The functional form [setMessages((prev) => ...)]. *)
Definition setMessages (f : list Message -> list Message) (st : ChatState)
  : ChatState :=
  {| input := input st; messages := f (messages st);
     isStreaming := isStreaming st; error := error st;
     abortRef := abortRef st; pending := pending st; jobs := jobs st;
     network := network st |}.

Definition setIsStreaming (b : bool) (st : ChatState) : ChatState :=
  {| input := input st; messages := messages st; isStreaming := b;
     error := error st; abortRef := abortRef st; pending := pending st;
     jobs := jobs st; network := network st |}.

Definition setError (e : option jsstring) (st : ChatState) : ChatState :=
  {| input := input st; messages := messages st;
     isStreaming := isStreaming st; error := e; abortRef := abortRef st;
     pending := pending st; jobs := jobs st; network := network st |}.

Definition setAbortRef (c : option controller) (st : ChatState) : ChatState :=
  {| input := input st; messages := messages st;
     isStreaming := isStreaming st; error := error st; abortRef := c;
     pending := pending st; jobs := jobs st; network := network st |}.

Definition setPending (p : list Activation) (st : ChatState) : ChatState :=
  {| input := input st; messages := messages st;
     isStreaming := isStreaming st; error := error st;
     abortRef := abortRef st; pending := p; jobs := jobs st;
     network := network st |}.

Definition setJobs (j : list Job) (st : ChatState) : ChatState :=
  {| input := input st; messages := messages st;
     isStreaming := isStreaming st; error := error st;
     abortRef := abortRef st; pending := pending st; jobs := j;
     network := network st |}.

Definition setNetwork (n : list Request) (st : ChatState) : ChatState :=
  {| input := input st; messages := messages st;
     isStreaming := isStreaming st; error := error st;
     abortRef := abortRef st; pending := pending st; jobs := jobs st;
     network := n |}.

(** ** The handlers *)

Definition ask_url : jsstring := lit "http://127.0.0.1:8000/ask".

Definition stopped_text : jsstring := lit "Response generation stopped.".

Definition banner_text : jsstring :=
  lit "Unable to connect to server. Please try again.".

Definition apology_text : jsstring :=
  lit "I apologize, but I'm unable to connect to the server at the moment. Please check your connection and try again.".

(** [{ ...m, text: data.answer, sources: data.sources, isStreaming: false }] *)
Definition answered (data : Data.t) (m : Message) : Message :=
  Msg.mk (Msg.role m) (Msg.id m) (Data.answer data)
         (Some (Data.sources data)) (Some false) (Msg.isError m).

(** [{ ...m, text: "Response generation stopped.", isStreaming: false }] *)
Definition stopped (m : Message) : Message :=
  Msg.mk (Msg.role m) (Msg.id m) stopped_text (Msg.sources m) (Some false)
         (Msg.isError m).

(** [{ ...m, text: "I apologize, ...", isStreaming: false, isError: true }] *)
Definition failed (m : Message) : Message :=
  Msg.mk (Msg.role m) (Msg.id m) apology_text (Msg.sources m) (Some false)
         (Some true).

(** [prev.map((m) => m.id === id ? upd(m) : m)] *)
Definition update_by_id (id : Z) (upd : Message -> Message)
  (prev : list Message) : list Message :=
  (fun m => if id_matches id m then upd m else m) <$> prev.

(** [fetch(url, init)] sends the request and hands back a pending promise;
    the caller [a] awaits it. *)
Definition fetch (req : Request) (a : Activation) (st : ChatState)
  : ChatState :=
  setPending (pending st ++ [a]) (setNetwork (network st ++ [req]) st).

(** [sendMessage], from its entry to [await fetch(...)].  [now] is the
    value [Date.now()] returns.  The handler reads the [input] and
    [isStreaming] of the render it was made in ([useCallback] with both as
    dependencies); React renders again before the next event is handled, so
    these are the current values.  The controller made by
    [new AbortController()] is named by the number of requests sent before
    it: the handler allocates one per request. *)
Definition sendMessage (now : Z) (st : ChatState) : ChatState :=
  if negb (truthy (trim (input st))) || isStreaming st then st
  else
    let userMessage := userMessage (trim (input st)) in
    let id := now in
    let st := setMessages
                (fun prev => prev ++ [userMessage; placeholder id]) st in
    let st := setInput [] st in
    let st := setIsStreaming true st in
    let st := setError None st in
    let c := length (network st) in
    let st := setAbortRef (Some c) st in
    fetch {| url := ask_url;
             method := lit "POST";
             headers := [(lit "Content-Type", lit "application/json")];
             body := JSON_stringify [(lit "question", Msg.text userMessage)];
             signal := c |}
          {| act_id := id; act_signal := c; act_at := AwaitFetch |} st.

(** The [try] block after [await res.json()] has given [data]. *)
Definition sendMessage_try_end (id : Z) (data : Data.t) (st : ChatState)
  : ChatState :=
  setMessages (update_by_id id (answered data)) st.

(** The [catch (err)] block ([console.error] leaves the page as it is). *)
Definition sendMessage_catch (id : Z) (err : JsError) (st : ChatState)
  : ChatState :=
  if is_abort err then
    setMessages (update_by_id id stopped) st
  else
    let st := setError (Some banner_text) st in
    setMessages (update_by_id id failed) st.

(** The [finally] block. *)
Definition sendMessage_finally (st : ChatState) : ChatState :=
  setAbortRef None (setIsStreaming false st).

(** [sendMessage] resumed after [await fetch(...)]: a rejection goes to
    [catch]; a response that is not [ok] throws a plain [Error]; otherwise
    the activation suspends again at [await res.json()]. *)
Definition resume_fetch (a : Activation) (r : Settled Response)
  (st : ChatState) : ChatState :=
  match r with
  | Fulfilled res =>
      if negb (ok res) then
        sendMessage_finally (sendMessage_catch (act_id a) ServerError st)
      else
        setPending
          (pending st ++
             [{| act_id := act_id a; act_signal := act_signal a;
                 act_at := AwaitJson |}]) st
  | Rejected err =>
      sendMessage_finally (sendMessage_catch (act_id a) err st)
  end.

(** [sendMessage] resumed after [await res.json()]. *)
Definition resume_json (a : Activation) (r : Settled Data.t)
  (st : ChatState) : ChatState :=
  match r with
  | Fulfilled data =>
      sendMessage_finally (sendMessage_try_end (act_id a) data st)
  | Rejected err =>
      sendMessage_finally (sendMessage_catch (act_id a) err st)
  end.

(** The rejection an aborted signal gives the promise [a] waits on. *)
Definition abort_job (a : Activation) : Job :=
  match act_at a with
  | AwaitFetch => ResumeFetch a (Rejected AbortError)
  | AwaitJson => ResumeJson a (Rejected AbortError)
  end.

(** [controller.abort()]: every promise tied to the signal is rejected with
    an [AbortError] by the call itself; the reactions are queued as promise
    jobs, which run when the handler that called [abort] has returned. *)
Definition abort (c : controller) (st : ChatState) : ChatState :=
  let hit := filter (fun a => act_signal a = c) (pending st) in
  let rest := filter (fun a => act_signal a <> c) (pending st) in
  setJobs (jobs st ++ (abort_job <$> hit)) (setPending rest st).

(** [stopGeneration] *)
Definition stopGeneration (st : ChatState) : ChatState :=
  match abortRef st with
  | Some c =>
      let st := abort c st in
      setIsStreaming false st
  | None => st
  end.

(** [handleKey]: Enter without Shift sends ([preventDefault] keeps the
    key from adding a line break to the draft). *)
Definition handleKey (key : jsstring) (shiftKey : bool) (now : Z)
  (st : ChatState) : ChatState :=
  if bool_decide (key = lit "Enter") && negb shiftKey then sendMessage now st
  else st.

(** ** Events and the event loop *)

Inductive Event :=
| Change (value : jsstring)
| KeyDown (key : jsstring) (shiftKey : bool) (now : Z)
| ClickSend (now : Z)
| ClickStop
| ClickDismiss
| FetchSettles (c : controller) (r : Settled Response)
| JsonSettles (c : controller) (r : Settled Data.t).

#[global] Instance AwaitPoint_eq_dec : EqDecision AwaitPoint.
Proof. solve_decision. Defined.

(** The activation waits at [p] on a promise tied to the signal of [c]. *)
Definition awaits (c : controller) (p : AwaitPoint) (a : Activation) : Prop :=
  act_signal a = c /\ act_at a = p.

#[global] Instance awaits_dec c p a : Decision (awaits c p a).
Proof. unfold awaits. apply _. Defined.

(** The promise settles: its awaiter leaves [pending] and the reaction
    that resumes it is queued. *)
Definition settle (c : controller) (p : AwaitPoint)
  (reaction : Activation -> Job) (st : ChatState) : ChatState :=
  let hit := filter (awaits c p) (pending st) in
  let rest := filter (fun a => ~ awaits c p a) (pending st) in
  setJobs (jobs st ++ (reaction <$> hit)) (setPending rest st).

(** What the page does in the task of an event, before promise jobs run:
    the handler the JSX binds to it, or the settling of a promise. *)
Definition dispatch (e : Event) (st : ChatState) : ChatState :=
  match e with
  | Change v => setInput v st
  | KeyDown key shiftKey now => handleKey key shiftKey now st
  | ClickSend now => sendMessage now st
  | ClickStop => stopGeneration st
  | ClickDismiss => setError None st
  | FetchSettles c r => settle c AwaitFetch (fun a => ResumeFetch a r) st
  | JsonSettles c r => settle c AwaitJson (fun a => ResumeJson a r) st
  end.

Definition run_job (j : Job) (st : ChatState) : ChatState :=
  match j with
  | ResumeFetch a r => resume_fetch a r st
  | ResumeJson a r => resume_json a r st
  end.

(** The job queue is emptied at the end of every task.  No reaction of
    this program queues another one. *)
Definition run_jobs (st : ChatState) : ChatState :=
  foldl (fun s j => run_job j s) (setJobs [] st) (jobs st).

(** One turn of the event loop. *)
Definition step (e : Event) (st : ChatState) : ChatState :=
  run_jobs (dispatch e st).

(** When the rendered page lets the event happen: the textarea is
    [disabled={isStreaming}]; the Stop button is rendered while
    [isStreaming], the Send button otherwise, [disabled={!input.trim()}];
    the banner with its dismiss button is rendered when [error] is truthy;
    a promise settles only while somebody awaits it. *)
Definition enabled (e : Event) (st : ChatState) : bool :=
  match e with
  | Change _ => negb (isStreaming st)
  | KeyDown _ _ _ => negb (isStreaming st)
  | ClickSend _ => negb (isStreaming st) && truthy (trim (input st))
  | ClickStop => isStreaming st
  | ClickDismiss =>
      match error st with Some e => truthy e | None => false end
  | FetchSettles c _ =>
      bool_decide (Exists (awaits c AwaitFetch) (pending st))
  | JsonSettles c _ =>
      bool_decide (Exists (awaits c AwaitJson) (pending st))
  end.

(** The states the page can be in. *)
Inductive reachable : ChatState -> Prop :=
| reachable_initial : reachable initial
| reachable_step st e :
    reachable st -> enabled e st = true -> reachable (step e st).

(** A run of events, and whether each is enabled when its turn comes. *)
Fixpoint run (es : list Event) (st : ChatState) : ChatState :=
  match es with
  | [] => st
  | e :: es' => run es' (step e st)
  end.

Fixpoint admissible (es : list Event) (st : ChatState) : bool :=
  match es with
  | [] => true
  | e :: es' => enabled e st && admissible es' (step e st)
  end.

(** ** Shapes of the message list *)

(** The role the message at position [i] has in a list that alternates
    starting with the user. *)
Definition role_at (i : nat) : Role := if Nat.even i then user else bot.

(** User and bot messages alternate: the list grows by one user message
    and one bot message at a time. *)
Inductive alternates : list Message -> Prop :=
| alternates_nil : alternates []
| alternates_snoc l u b :
    alternates l -> Msg.role u = user -> Msg.role b = bot ->
    alternates (l ++ [u; b]).

(** A message is still itself after an update: the same role and id, and
    untouched altogether unless it carries an id. *)
Definition same_message (m m' : Message) : Prop :=
  Msg.role m' = Msg.role m /\ Msg.id m' = Msg.id m /\
  (Msg.id m = None -> m' = m).

(** What holds of every state the page can be in: the job queue is empty
    between tasks, the list alternates, and there is either no suspended
    activation (then nothing is streaming) or exactly one, whose placeholder
    is the untouched last message. *)
Definition Inv (st : ChatState) : Prop :=
  jobs st = [] /\ alternates (messages st) /\
  match pending st with
  | [] => isStreaming st = false /\ abortRef st = None
  | [a] =>
      isStreaming st = true /\ abortRef st = Some (act_signal a) /\
      error st = None /\ input st = [] /\
      list.last (messages st) = Some (placeholder (act_id a))
  | _ => False
  end.

(** The events that can end the request of [a]: its promises settling,
    and the Stop button. *)
Definition concerns (a : Activation) (e : Event) : Prop :=
  match e with
  | FetchSettles c _ => c = act_signal a
  | JsonSettles c _ => c = act_signal a
  | ClickStop => True
  | _ => False
  end.

(** The events by which the request of [a] fails other than by being
    cancelled: a response that is not [ok], or a rejection of either
    promise with something else than an [AbortError]. *)
Definition fails (a : Activation) (e : Event) : Prop :=
  match e with
  | FetchSettles c (Fulfilled res) =>
      c = act_signal a /\ act_at a = AwaitFetch /\ ok res = false
  | FetchSettles c (Rejected err) =>
      c = act_signal a /\ act_at a = AwaitFetch /\ is_abort err = false
  | JsonSettles c (Rejected err) =>
      c = act_signal a /\ act_at a = AwaitJson /\ is_abort err = false
  | _ => False
  end.

(** ** What the page renders

    The conditions of the JSX that decide what the user sees. *)

(** [ToBoolean] on a property that holds a boolean when it is there. *)
Definition truthy_flag (b : option bool) : bool :=
  match b with Some true => true | _ => false end.

(** [m.isStreaming && !m.text]: the three pulsing dots are rendered in
    place of the text of the message. *)
Definition shows_typing (m : Message) : bool :=
  truthy_flag (Msg.isStreaming m) && negb (truthy (Msg.text m)).

(** [m.sources && m.sources.length > 0]: the list of sources is rendered
    under the message. *)
Definition shows_sources (m : Message) : bool :=
  match Msg.sources m with
  | Some l => 0 <? length l
  | None => false
  end.

(** [messages.length === 0]: the welcome screen is rendered instead of
    the conversation. *)
Definition shows_welcome (st : ChatState) : bool :=
  length (messages st) =? 0.

(** [error && ...]: the error banner is rendered. *)
Definition shows_banner (st : ChatState) : bool :=
  match error st with Some e => truthy e | None => false end.

(** The [init] of the [fetch] call for the question [q], with the signal
    of controller [c]. *)
Definition ask_request (q : jsstring) (c : controller) : Request :=
  {| url := ask_url;
     method := lit "POST";
     headers := [(lit "Content-Type", lit "application/json")];
     body := JSON_stringify [(lit "question", q)];
     signal := c |}.

(** The events that call [sendMessage]. *)
Definition is_submission (e : Event) : bool :=
  match e with
  | KeyDown _ _ _ | ClickSend _ => true
  | _ => false
  end.

(** The value of [Date.now()] a submission would use as its id. *)
Definition submission_clock (e : Event) : option Z :=
  match e with
  | KeyDown _ _ now | ClickSend now => Some now
  | _ => None
  end.

(** ** Reading a quoted JSON string back

    The inverse of [quote_units], as a JSON parser reads the inside of a
    string: a backslash starts an escape, anything else stands for
    itself. *)

Local Open Scope N_scope.

Definition unhex_digit (c : code_unit) : option N :=
  if (0x30 <=? c) && (c <=? 0x39) then Some (c - 0x30)
  else if (0x61 <=? c) && (c <=? 0x66) then Some (c - 0x61 + 10)
  else if (0x41 <=? c) && (c <=? 0x46) then Some (c - 0x41 + 10)
  else None.

Definition unhex4 (h1 h2 h3 h4 : code_unit) : option code_unit :=
  match unhex_digit h1, unhex_digit h2, unhex_digit h3, unhex_digit h4 with
  | Some a, Some b, Some c, Some d => Some (((a * 16 + b) * 16 + c) * 16 + d)
  | _, _, _, _ => None
  end.

(** The character a two-character escape stands for. *)
Definition unescape_simple (x : code_unit) : option code_unit :=
  if x =? 0x62 then Some 0x08
  else if x =? 0x74 then Some 0x09
  else if x =? 0x6E then Some 0x0A
  else if x =? 0x66 then Some 0x0C
  else if x =? 0x72 then Some 0x0D
  else if x =? 0x22 then Some 0x22
  else if x =? 0x5C then Some 0x5C
  else if x =? 0x2F then Some 0x2F
  else None.

Fixpoint unquote_units (s : jsstring) : option jsstring :=
  match s with
  | [] => Some []
  | c :: s1 =>
      if c =? 0x5C then
        match s1 with
        | [] => None
        | x :: s2 =>
            if x =? 0x75 then
              match s2 with
              | h1 :: h2 :: h3 :: h4 :: s6 =>
                  match unhex4 h1 h2 h3 h4 with
                  | Some v => cons v <$> unquote_units s6
                  | None => None
                  end
              | _ => None
              end
            else
              match unescape_simple x with
              | Some v => cons v <$> unquote_units s2
              | None => None
              end
        end
      else cons c <$> unquote_units s1
  end.

Local Close Scope N_scope.

(** ** Messages at rest *)

(** The three updates a request can end with. *)
Inductive ending : (Message -> Message) -> Prop :=
| ending_answered data : ending (answered data)
| ending_stopped : ending stopped
| ending_failed : ending failed.

(** A user message as [sendMessage] makes it: [role] and [text] only, the
    text being a trimmed draft that was not blank. *)
Definition user_made (m : Message) : Prop :=
  Msg.id m = None /\ Msg.sources m = None /\ Msg.isStreaming m = None /\
  Msg.isError m = None /\
  exists draft, blank draft = false /\ Msg.text m = trim draft.

(** A message no request is working on: a user message, or a bot message
    with an id whose [isStreaming] is false. *)
Definition settled (m : Message) : Prop :=
  match Msg.role m with
  | user => user_made m
  | bot => Msg.id m <> None /\ Msg.isStreaming m = Some false
  end.

(** Every message is settled, but for the placeholder of the request in
    flight, which is the last message. *)
Definition Settled_but_last (st : ChatState) : Prop :=
  match pending st with
  | [] => Forall settled (messages st)
  | a :: _ =>
      exists l, messages st = l ++ [placeholder (act_id a)] /\
                Forall settled l
  end.

(** The error text is null, or it is the one banner text, nothing is in
    flight and the conversation ends with the apology. *)
Definition Banner_with_apology (st : ChatState) : Prop :=
  match error st with
  | None => True
  | Some e =>
      e = banner_text /\ isStreaming st = false /\
      exists l id,
        messages st
        = l ++ [Msg.mk bot (Some id) apology_text None (Some false)
                  (Some true)]
  end.

(** Request [i] of the log is the question of the user message at
    position [2 * i]. *)
Definition Log_matches (st : ChatState) : Prop :=
  length (messages st) = 2 * length (network st) /\
  forall i req, network st !! i = Some req ->
    exists q, messages st !! (2 * i) = Some (userMessage q) /\
              req = ask_request q i.

(** ** A sample conversation

    States of a short session, used to exercise the statements below: the
    user types a question, sends it with Enter, and the request is out;
    then the response arrives and its body is awaited. *)

Definition sample_draft : jsstring := lit "  What are the fees? ".

Definition sample_now : Z := 1700000000000.

Definition sample_typed : ChatState := run [Change sample_draft] initial.

Definition sample_waiting : ChatState :=
  run [KeyDown (lit "Enter") false sample_now] sample_typed.

Definition sample_activation : Activation :=
  {| act_id := sample_now; act_signal := 0; act_at := AwaitFetch |}.

Definition sample_reading : ChatState :=
  run [FetchSettles 0 (Fulfilled {| status := 200 |})] sample_waiting.

Definition sample_data : Data.t :=
  Data.mk (lit "See the **fee schedule**.")
          [{| source := lit "fees.pdf"; score := 0.875%float |}].

(** The body arrives and the answer is shown. *)
Definition sample_answered : ChatState :=
  run [JsonSettles 0 (Fulfilled sample_data)] sample_reading.

(** The server answers 503 instead, and the user types the question again
    under the error banner. *)
Definition sample_retyped : ChatState :=
  run [FetchSettles 0 (Fulfilled {| status := 503 |}); Change sample_draft]
      sample_waiting.

(** * Properties *)

(** ** The run-time functions on sample inputs *)

Example trim_sample : trim sample_draft = lit "What are the fees?".
Proof. reflexivity. Qed.

(** The ideographic space and the no-break space are white space too. *)
Example trim_wide_spaces :
  trim ([0x3000; 0x41; 0x20; 0x42; 0xA0; 0x0A])%N = ([0x41; 0x20; 0x42])%N.
Proof. reflexivity. Qed.

Example blank_sample : blank (lit "   ") = true /\ blank sample_draft = false.
Proof. split; reflexivity. Qed.

(** The body of the sample request, quotation marks written as code unit
    [0x22]. *)
Example body_sample :
  body <$> network sample_waiting
  = [lit "{" ++ [0x22%N] ++ lit "question" ++ [0x22%N] ++ lit ":"
     ++ [0x22%N] ++ lit "What are the fees?" ++ [0x22%N] ++ lit "}"].
Proof. reflexivity. Qed.

(** Quotation marks, backslashes, control characters and lone surrogates
    are escaped; a surrogate pair is copied. *)
Example quote_sample :
  quote_units ([0x22; 0x5C; 0x0A; 0x01; 0xD83D; 0xDE00; 0xDE00])%N
  = lit "\" ++ [0x22%N] ++ lit "\\\n\u0001" ++ ([0xD83D; 0xDE00])%N
    ++ lit "\ude00".
Proof. reflexivity. Qed.

(** Two requests that got the same [Date.now()] share their id: stopping
    the second one rewrites the answered first one as well. *)
Example same_id_twice :
  let st :=
    run [Change (lit "a"); ClickSend 5;
         FetchSettles 0 (Fulfilled {| status := 200 |});
         JsonSettles 0 (Fulfilled (Data.mk (lit "A") []));
         Change (lit "b"); ClickSend 5; ClickStop] initial in
  Msg.text <$> messages st
  = [lit "a"; stopped_text; lit "b"; stopped_text].
Proof. reflexivity. Qed.

(** ** Strings *)

Lemma blank_app s t : blank (s ++ t) = blank s && blank t.
Proof. unfold blank. apply forallb_app. Qed.

Lemma blank_reverse s : blank (reverse s) = blank s.
Proof.
  induction s as [|c s IH]; [done|].
  rewrite reverse_cons, blank_app, IH. simpl.
  rewrite andb_true_r. apply andb_comm.
Qed.

Lemma trimStart_nil s : trimStart s = [] <-> blank s = true.
Proof.
  induction s as [|c s IH]; simpl; [done|].
  destruct (is_white_space c); simpl; [done|]. split; discriminate.
Qed.

Lemma blank_trimStart s : blank (trimStart s) = blank s.
Proof.
  induction s as [|c s IH]; simpl; [done|].
  destruct (is_white_space c) eqn:E; simpl; [done|]. by rewrite E.
Qed.

Lemma trimEnd_nil s : trimEnd s = [] <-> blank s = true.
Proof.
  unfold trimEnd. rewrite <- (blank_reverse s), <- trimStart_nil.
  split; intros H.
  - apply (f_equal reverse) in H. by rewrite reverse_involutive in H.
  - by rewrite H.
Qed.

Lemma trim_nil s : trim s = [] <-> blank s = true.
Proof. unfold trim. by rewrite trimEnd_nil, blank_trimStart. Qed.

(** The test [!input.trim()] of the handler is the test for a blank
    draft. *)
Lemma truthy_trim s : truthy (trim s) = negb (blank s).
Proof.
  destruct (blank s) eqn:E.
  - apply trim_nil in E. by rewrite E.
  - destruct (trim s) eqn:T; [|done].
    apply trim_nil in T. congruence.
Qed.

(** [trim] removes white space and nothing else: the draft is its trimmed
    text between two blank strings, and the trimmed text neither starts
    nor ends with white space. *)
Lemma trimStart_spec s :
  exists pre, s = pre ++ trimStart s /\ blank pre = true /\
    (forall c t, trimStart s = c :: t -> is_white_space c = false).
Proof.
  induction s as [|c s (pre & E & B & H)]; simpl.
  - exists []. done.
  - destruct (is_white_space c) eqn:W.
    + exists (c :: pre). simpl. rewrite W, B. split; [by f_equal|done].
    + exists []. split; [done|]. split; [done|]. by intros ? ? [= <- _].
Qed.

Lemma trim_spec s :
  exists pre post, s = pre ++ trim s ++ post /\
    blank pre = true /\ blank post = true /\
    (forall c t, trim s = c :: t -> is_white_space c = false) /\
    (forall c t, trim s = t ++ [c] -> is_white_space c = false).
Proof.
  destruct (trimStart_spec s) as (pre & E1 & B1 & H1).
  destruct (trimStart_spec (reverse (trimStart s))) as (post & E2 & B2 & H2).
  exists pre, (reverse post).
  assert (E3 : trimStart s = trim s ++ reverse post).
  { unfold trim, trimEnd. rewrite <- reverse_app, <- E2.
    by rewrite reverse_involutive. }
  split; [by rewrite <- E3|]. split; [done|].
  split; [by rewrite blank_reverse|]. split.
  - intros c t T. rewrite T in E3. simpl in E3. eapply H1, E3.
  - intros c t T. apply (H2 c (reverse t)).
    unfold trim, trimEnd in T. apply (f_equal reverse) in T.
    by rewrite reverse_involutive, reverse_app in T.
Qed.

(** ** The handlers, case by case *)

Lemma sendMessage_refused now st :
  blank (input st) = true \/ isStreaming st = true ->
  sendMessage now st = st.
Proof.
  intros H. unfold sendMessage. rewrite truthy_trim, negb_involutive.
  destruct H as [-> | ->]; [done|]. by rewrite orb_true_r.
Qed.

Lemma sendMessage_accepted now st :
  blank (input st) = false -> isStreaming st = false ->
  sendMessage now st =
  {| input := [];
     messages :=
       messages st ++ [userMessage (trim (input st)); placeholder now];
     isStreaming := true;
     error := None;
     abortRef := Some (length (network st));
     pending :=
       pending st ++
       [{| act_id := now; act_signal := length (network st);
           act_at := AwaitFetch |}];
     jobs := jobs st;
     network :=
       network st ++
       [{| url := ask_url;
           method := lit "POST";
           headers := [(lit "Content-Type", lit "application/json")];
           body := JSON_stringify [(lit "question", trim (input st))];
           signal := length (network st) |}] |}.
Proof.
  intros B S. unfold sendMessage. rewrite truthy_trim, B, S. reflexivity.
Qed.

Lemma is_abort_false err : is_abort err = false <-> name err <> lit "AbortError".
Proof. unfold is_abort. apply bool_decide_eq_false. Qed.

Lemma messages_catch_abort id st :
  messages (sendMessage_catch id AbortError st)
  = update_by_id id stopped (messages st).
Proof. reflexivity. Qed.

Lemma sendMessage_catch_other id err st :
  is_abort err = false ->
  sendMessage_catch id err st
  = setMessages (update_by_id id failed) (setError (Some banner_text) st).
Proof. intros H. unfold sendMessage_catch. by rewrite H. Qed.

(** ** Updates by id *)

Section update_by_id.
Variables (id : Z) (upd : Message -> Message).
Hypothesis upd_role : forall m, Msg.role (upd m) = Msg.role m.
Hypothesis upd_id : forall m, Msg.id (upd m) = Msg.id m.

Lemma length_update_by_id l : length (update_by_id id upd l) = length l.
Proof. apply length_fmap. Qed.

Lemma lookup_update_by_id l i :
  update_by_id id upd l !! i
  = (fun m => if id_matches id m then upd m else m) <$> (l !! i).
Proof. apply list_lookup_fmap. Qed.

Lemma last_update_by_id l :
  list.last (update_by_id id upd l)
  = (fun m => if id_matches id m then upd m else m) <$> list.last l.
Proof. apply fmap_last. Qed.

Lemma id_matches_spec m : id_matches id m = true <-> Msg.id m = Some id.
Proof.
  unfold id_matches. destruct (Msg.id m) as [i|]; [|done].
  rewrite Z.eqb_eq. split; congruence.
Qed.

Lemma update_by_id_same l i m :
  l !! i = Some m ->
  exists m', update_by_id id upd l !! i = Some m' /\ same_message m m' /\
             (Msg.id m <> Some id -> m' = m) /\
             (Msg.id m = Some id -> m' = upd m).
Proof.
  intros H. rewrite lookup_update_by_id, H. simpl.
  destruct (id_matches id m) eqn:E.
  - apply id_matches_spec in E. exists (upd m).
    split; [done|]. split; [|split; congruence].
    split; [apply upd_role|]. split; [apply upd_id|congruence].
  - exists m. split; [done|]. split; [done|]. split; [done|].
    intros E'. apply id_matches_spec in E'. congruence.
Qed.

Lemma alternates_update_by_id l :
  alternates l -> alternates (update_by_id id upd l).
Proof.
  induction 1 as [|l u b _ IH Hu Hb]; [constructor|].
  unfold update_by_id in *. rewrite fmap_app. simpl.
  constructor; [done| |].
  - destruct (id_matches id u); by rewrite ?upd_role.
  - destruct (id_matches id b); by rewrite ?upd_role.
Qed.
End update_by_id.

Lemma id_matches_placeholder id : id_matches id (placeholder id) = true.
Proof. apply id_matches_spec. done. Qed.

(** ** The list alternates *)

Lemma alternates_even_length l : alternates l -> Nat.Even (length l).
Proof.
  induction 1 as [|l u b _ [k IH] _ _]; [by exists 0|].
  exists (S k). rewrite length_app. simpl. lia.
Qed.

Lemma alternates_lookup l i m :
  alternates l -> l !! i = Some m -> Msg.role m = role_at i.
Proof.
  intros H. revert i m.
  induction H as [|l u b H IH Hu Hb]; intros i m; [done|].
  destruct (decide (i < length l)) as [Hi|Hi].
  - rewrite lookup_app_l by done. apply IH.
  - rewrite lookup_app_r by lia.
    apply alternates_even_length in H. destruct H as [k Hk].
    unfold role_at.
    destruct (i - length l) as [|[|n]] eqn:E; simpl; [| |done].
    + intros [= <-]. replace i with (2 * k) by lia.
      by rewrite Nat.even_even.
    + intros [= <-]. replace i with (S (2 * k)) by lia.
      by rewrite Nat.even_succ, Nat.odd_even.
Qed.

(** ** One turn of the event loop *)

Lemma run_jobs_idle st : jobs st = [] -> run_jobs st = st.
Proof. destruct st. simpl. by intros ->. Qed.

Lemma filter_awaits_hit a :
  filter (awaits (act_signal a) (act_at a)) [a] = [a].
Proof.
  rewrite filter_cons, decide_True by done. by rewrite filter_nil.
Qed.

Lemma filter_awaits_rest a :
  filter (fun b => ~ awaits (act_signal a) (act_at a) b) [a] = [].
Proof.
  rewrite filter_cons, decide_False; [by rewrite filter_nil|].
  intros H. by apply H.
Qed.

(** With one activation suspended at [await fetch], the settling of its
    promise resumes it in the same turn. *)
Lemma step_FetchSettles st a r :
  jobs st = [] -> pending st = [a] -> act_at a = AwaitFetch ->
  step (FetchSettles (act_signal a) r) st
  = resume_fetch a r (setPending [] st).
Proof.
  destruct st; simpl; intros -> -> A.
  unfold step, dispatch, settle, run_jobs; simpl.
  rewrite <- A, filter_awaits_hit, filter_awaits_rest.
  destruct r; reflexivity.
Qed.

Lemma step_JsonSettles st a r :
  jobs st = [] -> pending st = [a] -> act_at a = AwaitJson ->
  step (JsonSettles (act_signal a) r) st
  = resume_json a r (setPending [] st).
Proof.
  destruct st; simpl; intros -> -> A.
  unfold step, dispatch, settle, run_jobs; simpl.
  rewrite <- A, filter_awaits_hit, filter_awaits_rest.
  destruct r; reflexivity.
Qed.

(** With one activation suspended and its controller in [abortRef], the
    Stop button takes it through [catch] with an [AbortError] and through
    [finally] in the same turn. *)
Lemma step_ClickStop st a :
  jobs st = [] -> pending st = [a] -> abortRef st = Some (act_signal a) ->
  step ClickStop st
  = sendMessage_finally
      (sendMessage_catch (act_id a) AbortError (setPending [] st)).
Proof.
  destruct st; simpl; intros -> -> ->.
  unfold step, dispatch, stopGeneration, abort, run_jobs; simpl.
  rewrite !filter_cons, !filter_nil, decide_True, decide_False by auto.
  destruct a as [i c []]; reflexivity.
Qed.

Lemma enabled_settles_single c p a :
  Exists (awaits c p) [a] -> c = act_signal a /\ act_at a = p.
Proof.
  intros H. apply Exists_cons in H as [[<- <-]|H]; [done|].
  by apply Exists_nil in H.
Qed.

(** ** The invariant *)

Lemma Inv_initial : Inv initial.
Proof. repeat split. constructor. Qed.

Lemma Inv_idle st :
  Inv st -> isStreaming st = false -> pending st = [].
Proof.
  intros (_ & _ & P) S. destruct (pending st) as [|a [|b l]]; [done| |done].
  destruct P as (S' & _). congruence.
Qed.

Lemma Inv_busy st :
  Inv st -> isStreaming st = true -> exists a, pending st = [a].
Proof.
  intros (_ & _ & P) S. destruct (pending st) as [|a [|b l]]; [|by eexists|done].
  destruct P as (S' & _). congruence.
Qed.

Lemma Inv_sendMessage now st : Inv st -> Inv (sendMessage now st).
Proof.
  intros I.
  destruct (blank (input st)) eqn:B;
    [by rewrite sendMessage_refused by auto|].
  destruct (isStreaming st) eqn:S;
    [by rewrite sendMessage_refused by auto|].
  rewrite sendMessage_accepted by done.
  pose proof (Inv_idle st I S) as P. destruct I as (J & A & _).
  unfold Inv; simpl. rewrite P; simpl.
  split; [done|]. split; [by constructor|].
  repeat split. by rewrite (last_app_cons _ [_]).
Qed.

Lemma Inv_finally_catch id err st :
  jobs st = [] -> alternates (messages st) -> pending st = [] ->
  Inv (sendMessage_finally (sendMessage_catch id err st)).
Proof.
  intros J A P. unfold sendMessage_catch.
  destruct (is_abort err); unfold Inv; simpl; rewrite J, P;
    (split; [done|]); (split; [|done]);
    by apply alternates_update_by_id.
Qed.

Lemma Inv_finally_try_end id data st :
  jobs st = [] -> alternates (messages st) -> pending st = [] ->
  Inv (sendMessage_finally (sendMessage_try_end id data st)).
Proof.
  intros J A P. unfold Inv; simpl; rewrite J, P.
  split; [done|]. split; [|done]. by apply alternates_update_by_id.
Qed.

Lemma Inv_step st e : Inv st -> enabled e st = true -> Inv (step e st).
Proof.
  intros I E. pose proof I as (J & A & P).
  destruct (isStreaming st) eqn:S.
  - (* one request is out: only its promises and the Stop button *)
    destruct (Inv_busy st I S) as [a Pa]. rewrite Pa in P.
    destruct P as (_ & R & Err & In & L).
    destruct e as [v|k sh now|now| | |c r|c r]; simpl in E;
      rewrite ?S, ?Err in E; try discriminate.
    + rewrite (step_ClickStop st a) by done.
      by apply Inv_finally_catch.
    + rewrite Pa in E. apply bool_decide_eq_true in E.
      apply enabled_settles_single in E as [-> At].
      rewrite step_FetchSettles by done.
      destruct r as [res|err]; simpl;
        [destruct (ok res); simpl|]; try by apply Inv_finally_catch.
      unfold Inv; simpl. by rewrite J, S, Err, In, L.
    + rewrite Pa in E. apply bool_decide_eq_true in E.
      apply enabled_settles_single in E as [-> At].
      rewrite step_JsonSettles by done.
      destruct r as [data|err]; simpl;
        [by apply Inv_finally_try_end|by apply Inv_finally_catch].
  - (* nothing is out: the user types, sends or dismisses the banner *)
    pose proof (Inv_idle st I S) as Pe. rewrite Pe in P.
    destruct e as [v|k sh now|now| | |c r|c r]; simpl in E;
      rewrite ?S, ?Pe in E; try discriminate;
      try (apply bool_decide_eq_true, Exists_nil in E; done).
    + unfold step; simpl. rewrite run_jobs_idle by exact J.
      unfold Inv; simpl. rewrite J, Pe. by destruct P.
    + unfold step; simpl. unfold handleKey.
      destruct (_ && _).
      * pose proof (Inv_sendMessage now st I) as I'.
        rewrite run_jobs_idle; [done|apply I'].
      * by rewrite run_jobs_idle.
    + unfold step; simpl.
      pose proof (Inv_sendMessage now st I) as I'.
      rewrite run_jobs_idle; [done|apply I'].
    + unfold step; simpl. rewrite run_jobs_idle by exact J.
      unfold Inv; simpl. rewrite J, Pe. by destruct P.
Qed.

Lemma reachable_Inv st : reachable st -> Inv st.
Proof.
  induction 1 as [|st e _ IH E]; [apply Inv_initial|by apply Inv_step].
Qed.

Lemma reachable_run es st :
  reachable st -> admissible es st = true -> reachable (run es st).
Proof.
  revert st. induction es as [|e es IH]; intros st R A; [done|].
  simpl in *. apply andb_true_iff in A as [E A].
  apply IH; [by constructor|done].
Qed.

(** While a request is out the page is in a narrow state. *)
Lemma reachable_pending st a :
  reachable st -> a ∈ pending st ->
  pending st = [a] /\ jobs st = [] /\ isStreaming st = true /\
  abortRef st = Some (act_signal a) /\ error st = None /\ input st = [] /\
  exists l, messages st = l ++ [placeholder (act_id a)].
Proof.
  intros R Ha. apply reachable_Inv in R as (J & _ & P).
  destruct (pending st) as [|b [|c l]]; [by apply elem_of_nil in Ha| |done].
  apply list_elem_of_singleton in Ha as ->.
  destruct P as (S & Rf & E & I & L). apply last_Some in L. done.
Qed.

(** ** Completing a request *)

Lemma placeholder_updated id upd l :
  update_by_id id upd (l ++ [placeholder id]) !! length l
  = Some (upd (placeholder id)).
Proof.
  rewrite lookup_update_by_id, list_lookup_middle by done. simpl.
  by rewrite id_matches_placeholder.
Qed.

Lemma messages_finally st : messages (sendMessage_finally st) = messages st.
Proof. reflexivity. Qed.

(** A response that is [ok] changes nothing but the place where the
    activation waits. *)
Lemma step_ok_response st a res :
  jobs st = [] -> pending st = [a] -> act_at a = AwaitFetch ->
  ok res = true ->
  step (FetchSettles (act_signal a) (Fulfilled res)) st
  = setPending [{| act_id := act_id a; act_signal := act_signal a;
                   act_at := AwaitJson |}] st.
Proof.
  intros J P A O. rewrite step_FetchSettles by done. simpl. rewrite O.
  by destruct st.
Qed.

(** Every way the request of [a] can end other than by an answer goes
    through [catch] and [finally]. *)
Lemma step_fails st a e :
  jobs st = [] -> pending st = [a] -> fails a e ->
  exists err, is_abort err = false /\
    step e st
    = sendMessage_finally
        (sendMessage_catch (act_id a) err (setPending [] st)).
Proof.
  intros J P F.
  destruct e as [| | | | |c [res|err]|c [data|err]]; simpl in F; try done;
    destruct F as (-> & A & H).
  - exists ServerError. split; [done|].
    rewrite step_FetchSettles by done. simpl. by rewrite H.
  - exists err. split; [done|]. by rewrite step_FetchSettles.
  - exists err. split; [done|]. by rewrite step_JsonSettles.
Qed.

Lemma enabled_concerns st a e :
  pending st = [a] -> enabled e st = true -> concerns a e ->
  match e with
  | FetchSettles _ _ => act_at a = AwaitFetch
  | JsonSettles _ _ => act_at a = AwaitJson
  | _ => True
  end.
Proof.
  intros P E C. destruct e; simpl in *; try done; subst c;
    rewrite P in E; apply bool_decide_eq_true in E;
    by apply enabled_settles_single in E as [_ ?].
Qed.

(** The update of the message list an event that concerns the one
    request out performs: none, or one by the id of the request that
    keeps roles and ids. *)
Lemma step_concerns_messages st a e :
  jobs st = [] -> pending st = [a] -> abortRef st = Some (act_signal a) ->
  enabled e st = true -> concerns a e ->
  messages (step e st) = messages st \/
  exists upd,
    (forall m, Msg.role (upd m) = Msg.role m) /\
    (forall m, Msg.id (upd m) = Msg.id m) /\
    messages (step e st) = update_by_id (act_id a) upd (messages st).
Proof.
  intros J P R E C. pose proof (enabled_concerns st a e P E C) as A.
  destruct e as [| | | | |c [res|err]|c [data|err]]; simpl in C; try done;
    subst; rewrite ?(step_ClickStop st a), ?step_FetchSettles,
      ?step_JsonSettles by done; simpl;
    try destruct (ok res); simpl; unfold sendMessage_catch;
    try destruct (is_abort err); simpl;
    first [ by left
          | right; exists stopped; by repeat split
          | right; exists failed; by repeat split
          | right; exists (answered data); by repeat split ].
Qed.

(** Events other than a submission send nothing. *)
Lemma network_step st e :
  reachable st -> enabled e st = true ->
  match e with
  | KeyDown _ _ _ | ClickSend _ => True
  | _ => network (step e st) = network st
  end.
Proof.
  intros Rch E. pose proof (reachable_Inv st Rch) as I.
  pose proof I as (J & _ & P).
  destruct e as [v|k sh now|now| | |c r|c r]; try done.
  - unfold step; simpl. by rewrite run_jobs_idle.
  - simpl in E. destruct (Inv_busy st I E) as [a Pa].
    rewrite Pa in P. destruct P as (_ & R & _).
    rewrite (step_ClickStop st a) by done. reflexivity.
  - unfold step; simpl. by rewrite run_jobs_idle.
  - simpl in E. apply bool_decide_eq_true in E.
    destruct (pending st) as [|a [|b l]] eqn:Pa; [by apply Exists_nil in E| |done].
    apply enabled_settles_single in E as [-> A].
    rewrite step_FetchSettles by done.
    destruct r as [res|err]; simpl; [destruct (ok res); simpl|];
      unfold sendMessage_catch; try destruct (is_abort _); reflexivity.
  - simpl in E. apply bool_decide_eq_true in E.
    destruct (pending st) as [|a [|b l]] eqn:Pa; [by apply Exists_nil in E| |done].
    apply enabled_settles_single in E as [-> A].
    rewrite step_JsonSettles by done.
    destruct r as [data|err]; simpl;
      unfold sendMessage_catch; try destruct (is_abort _); reflexivity.
Qed.

Lemma sample_typed_reachable : reachable sample_typed.
Proof. by apply reachable_run; [constructor|]. Qed.

Lemma sample_waiting_reachable : reachable sample_waiting.
Proof. by apply reachable_run; [apply sample_typed_reachable|]. Qed.

Lemma sample_reading_reachable : reachable sample_reading.
Proof. by apply reachable_run; [apply sample_waiting_reachable|]. Qed.

Lemma sample_answered_reachable : reachable sample_answered.
Proof. by apply reachable_run; [apply sample_reading_reachable|]. Qed.

Lemma sample_retyped_reachable : reachable sample_retyped.
Proof. by apply reachable_run; [apply sample_waiting_reachable|]. Qed.

(** * The claims *)

(** C1.  When the draft holds at least one character that is not white
    space ([blank] is false) and no request is in flight ([isStreaming] is
    false), [sendMessage] appends exactly two messages to the list and
    touches no other: first a message of role ["user"] whose text is the
    trimmed draft, then a placeholder of role ["bot"] whose [isStreaming]
    flag is true (with the id [Date.now()] gave and an empty text). *)
Theorem sendMessage_appends_user_and_placeholder now st :
  blank (input st) = false -> isStreaming st = false ->
  exists u b,
    messages (sendMessage now st) = messages st ++ [u; b] /\
    Msg.role u = user /\ Msg.text u = trim (input st) /\
    Msg.role b = bot /\ Msg.isStreaming b = Some true /\
    u = userMessage (trim (input st)) /\ b = placeholder now.
Proof.
  intros B S. rewrite sendMessage_accepted by done.
  exists (userMessage (trim (input st))), (placeholder now). done.
Qed.

Lemma sendMessage_appends_user_and_placeholder_witness :
  blank (input sample_typed) = false /\
  isStreaming sample_typed = false /\
  exists u b,
    messages (sendMessage sample_now sample_typed)
    = messages sample_typed ++ [u; b] /\
    Msg.role u = user /\ Msg.text u = trim (input sample_typed) /\
    Msg.role b = bot /\ Msg.isStreaming b = Some true /\
    u = userMessage (trim (input sample_typed)) /\
    b = placeholder sample_now.
Proof.
  split; [reflexivity|]. split; [reflexivity|].
  apply (sendMessage_appends_user_and_placeholder sample_now sample_typed);
    reflexivity.
Defined.

(** C2.  When the draft is empty or holds only white space, [sendMessage]
    does nothing: it returns the state it was given, so the message list,
    the in-flight flag, the error text and the draft are unchanged, and
    the list of requests sent is unchanged too (no HTTP request). *)
Theorem sendMessage_blank_noop now st :
  blank (input st) = true ->
  sendMessage now st = st /\
  messages (sendMessage now st) = messages st /\
  isStreaming (sendMessage now st) = isStreaming st /\
  error (sendMessage now st) = error st /\
  input (sendMessage now st) = input st /\
  network (sendMessage now st) = network st.
Proof.
  intros B. by rewrite sendMessage_refused by auto.
Qed.

Lemma sendMessage_blank_noop_witness :
  let st := run [Change (lit "   ")] initial in
  blank (input st) = true /\
  (sendMessage sample_now st = st /\
   messages (sendMessage sample_now st) = messages st /\
   isStreaming (sendMessage sample_now st) = isStreaming st /\
   error (sendMessage sample_now st) = error st /\
   input (sendMessage sample_now st) = input st /\
   network (sendMessage sample_now st) = network st).
Proof.
  intros st. split; [reflexivity|].
  apply (sendMessage_blank_noop sample_now st). reflexivity.
Defined.

(** C3.  For the request in flight, when the response arrives with a 2xx
    status ([ok]) and its body parses to [{answer, sources}], both events
    can happen in turn, and afterwards the placeholder created for the
    request (found where it was) has the answer as its text, the sources
    of the reply as its sources and [isStreaming] false; the in-flight
    flag is cleared and nothing is left waiting. *)
Theorem success_fills_placeholder st a res data :
  reachable st -> a ∈ pending st -> act_at a = AwaitFetch ->
  ok res = true ->
  let e1 := FetchSettles (act_signal a) (Fulfilled res) in
  let e2 := JsonSettles (act_signal a) (Fulfilled data) in
  admissible [e1; e2] st = true /\
  (exists i,
     messages st !! i = Some (placeholder (act_id a)) /\
     messages (run [e1; e2] st) !! i
     = Some (Msg.mk bot (Some (act_id a)) (Data.answer data)
               (Some (Data.sources data)) (Some false) None)) /\
  isStreaming (run [e1; e2] st) = false /\
  pending (run [e1; e2] st) = [].
Proof.
  intros R Ha A O e1 e2.
  destruct (reachable_pending st a R Ha) as (P & J & S & Rf & E & I & l & M).
  set (a' := {| act_id := act_id a; act_signal := act_signal a;
                act_at := AwaitJson |}).
  assert (E1 : step e1 st = setPending [a'] st)
    by (by apply step_ok_response).
  assert (E2 : step e2 (step e1 st)
               = resume_json a' (Fulfilled data) (setPending [] st)).
  { rewrite E1. unfold e2.
    by rewrite (step_JsonSettles (setPending [a'] st) a'). }
  split.
  - simpl. rewrite E1. simpl. rewrite P, andb_true_r.
    apply andb_true_iff. split; apply bool_decide_eq_true.
    + by apply Exists_cons_hd.
    + by apply Exists_cons_hd.
  - simpl. rewrite E2. simpl. split; [|done].
    exists (length l). rewrite M. split; [by apply list_lookup_middle|].
    apply placeholder_updated.
Qed.

Lemma success_fills_placeholder_witness :
  let st := sample_waiting in
  let a := sample_activation in
  let e1 := FetchSettles (act_signal a) (Fulfilled {| status := 200 |}) in
  let e2 := JsonSettles (act_signal a) (Fulfilled sample_data) in
  admissible [e1; e2] st = true /\
  (exists i,
     messages st !! i = Some (placeholder (act_id a)) /\
     messages (run [e1; e2] st) !! i
     = Some (Msg.mk bot (Some (act_id a)) (Data.answer sample_data)
               (Some (Data.sources sample_data)) (Some false) None)) /\
  isStreaming (run [e1; e2] st) = false /\
  pending (run [e1; e2] st) = [].
Proof.
  apply (success_fills_placeholder sample_waiting sample_activation
           {| status := 200 |} sample_data).
  - apply sample_waiting_reachable.
  - apply list_elem_of_singleton. reflexivity.
  - reflexivity.
  - reflexivity.
Defined.

(** C4.  For the request in flight, when the user cancels it with the Stop
    button (the awaited promise rejects with an [AbortError]), the
    placeholder created for the request gets the stopped notice as its
    text and [isStreaming] false, the in-flight flag is cleared, nothing is
    left waiting, and the error banner is not set. *)
Theorem stop_marks_placeholder_stopped st a :
  reachable st -> a ∈ pending st ->
  enabled ClickStop st = true /\
  (exists i,
     messages st !! i = Some (placeholder (act_id a)) /\
     messages (step ClickStop st) !! i
     = Some (Msg.mk bot (Some (act_id a)) stopped_text None (Some false)
               None)) /\
  isStreaming (step ClickStop st) = false /\
  pending (step ClickStop st) = [] /\
  error (step ClickStop st) = None.
Proof.
  intros R Ha.
  destruct (reachable_pending st a R Ha) as (P & J & S & Rf & E & I & l & M).
  split; [done|]. rewrite (step_ClickStop st a) by done. simpl.
  split; [|done].
  exists (length l). rewrite M. split; [by apply list_lookup_middle|].
  apply placeholder_updated.
Qed.

Lemma stop_marks_placeholder_stopped_witness :
  let st := sample_reading in
  let a := {| act_id := sample_now; act_signal := 0; act_at := AwaitJson |} in
  enabled ClickStop st = true /\
  (exists i,
     messages st !! i = Some (placeholder (act_id a)) /\
     messages (step ClickStop st) !! i
     = Some (Msg.mk bot (Some (act_id a)) stopped_text None (Some false)
               None)) /\
  isStreaming (step ClickStop st) = false /\
  pending (step ClickStop st) = [] /\
  error (step ClickStop st) = None.
Proof.
  apply (stop_marks_placeholder_stopped sample_reading
           {| act_id := sample_now; act_signal := 0; act_at := AwaitJson |}).
  - apply sample_reading_reachable.
  - apply list_elem_of_singleton. reflexivity.
Defined.

(** C5.  For the request in flight, when the response has a status outside
    2xx, or either awaited promise rejects with an error that is not an
    [AbortError], the event can happen and afterwards the error banner holds
    the fallback connectivity message, the placeholder created for the
    request has the fallback error text, [isError] true and [isStreaming]
    false, the in-flight flag is cleared and nothing is left waiting. *)
Theorem failure_shows_fallback st a e :
  reachable st -> a ∈ pending st -> fails a e ->
  enabled e st = true /\
  error (step e st) = Some banner_text /\
  (exists i,
     messages st !! i = Some (placeholder (act_id a)) /\
     messages (step e st) !! i
     = Some (Msg.mk bot (Some (act_id a)) apology_text None (Some false)
               (Some true))) /\
  isStreaming (step e st) = false /\
  pending (step e st) = [].
Proof.
  intros R Ha F.
  destruct (reachable_pending st a R Ha) as (P & J & S & Rf & E & I & l & M).
  split.
  - destruct e as [| | | | |c [res|err]|c [data|err]]; simpl in F; try done;
      destruct F as (-> & A & _); simpl; rewrite P;
      apply bool_decide_eq_true; by apply Exists_cons_hd.
  - destruct (step_fails st a e J P F) as (err & Ab & ->).
    rewrite sendMessage_catch_other by done. simpl.
    split; [done|]. split; [|done].
    exists (length l). rewrite M. split; [by apply list_lookup_middle|].
    apply placeholder_updated.
Qed.

Lemma failure_shows_fallback_witness :
  let st := sample_waiting in
  let a := sample_activation in
  let e := FetchSettles 0 (Fulfilled {| status := 503 |}) in
  fails a e /\
  enabled e st = true /\
  error (step e st) = Some banner_text /\
  (exists i,
     messages st !! i = Some (placeholder (act_id a)) /\
     messages (step e st) !! i
     = Some (Msg.mk bot (Some (act_id a)) apology_text None (Some false)
               (Some true))) /\
  isStreaming (step e st) = false /\
  pending (step e st) = [].
Proof.
  assert (F : fails sample_activation
                (FetchSettles 0 (Fulfilled {| status := 503 |})))
    by (repeat split; reflexivity).
  split; [exact F|].
  apply (failure_shows_fallback sample_waiting sample_activation
           (FetchSettles 0 (Fulfilled {| status := 503 |}))).
  - apply sample_waiting_reachable.
  - apply list_elem_of_singleton. reflexivity.
  - exact F.
Defined.

(** C6.  In every reachable state at most one request is in flight, and
    whenever one is, the in-flight flag is set; while the flag is set,
    [sendMessage] returns the state it was given, whatever the draft and the
    clock: it changes nothing and sends nothing.  So no second request can
    be started next to one in flight. *)
Theorem single_request_in_flight st :
  reachable st ->
  length (pending st) <= 1 /\
  (pending st <> [] -> isStreaming st = true) /\
  (isStreaming st = true ->
   forall now, sendMessage now st = st /\
               network (sendMessage now st) = network st /\
               pending (sendMessage now st) = pending st).
Proof.
  intros R. apply reachable_Inv in R as (_ & _ & P).
  split; [|split].
  - destruct (pending st) as [|a [|b l]]; simpl; [lia|lia|done].
  - destruct (pending st) as [|a [|b l]]; [done| |done].
    by destruct P.
  - intros S now. by rewrite sendMessage_refused by auto.
Qed.

Lemma single_request_in_flight_witness :
  let st := sample_waiting in
  length (pending st) <= 1 /\
  (pending st <> [] -> isStreaming st = true) /\
  (isStreaming st = true ->
   forall now, sendMessage now st = st /\
               network (sendMessage now st) = network st /\
               pending (sendMessage now st) = pending st).
Proof.
  apply (single_request_in_flight sample_waiting).
  apply sample_waiting_reachable.
Defined.

Lemma reachable_draft_idle st :
  reachable st -> blank (input st) = false -> isStreaming st = false.
Proof.
  intros R B. destruct (isStreaming st) eqn:S; [|done].
  destruct (Inv_busy st (reachable_Inv st R) S) as [a P].
  assert (Ha : a ∈ pending st) by (rewrite P; apply list_elem_of_singleton; done).
  destruct (reachable_pending st a R Ha) as (_ & _ & _ & _ & _ & I & _).
  by rewrite I in B.
Qed.

(** C7.  A submission of a draft that is not empty (not blank: all white
    space counts as empty, as the handler trims before it tests) sends
    exactly one request: the list of requests sent grows by one [POST] to
    the [/ask] endpoint whose body is the JSON text of [{question: q}], [q]
    being the trimmed draft at that time.  No later event of the page other
    than a submission sends anything. *)
Theorem submission_posts_question_once st now :
  reachable st -> blank (input st) = false ->
  network (sendMessage now st)
  = network st ++
    [{| url := ask_url;
        method := lit "POST";
        headers := [(lit "Content-Type", lit "application/json")];
        body := JSON_stringify [(lit "question", trim (input st))];
        signal := length (network st) |}] /\
  sendMessage now st = step (ClickSend now) st /\
  forall s e, reachable s -> enabled e s = true ->
    match e with
    | KeyDown _ _ _ | ClickSend _ => True
    | _ => network (step e s) = network s
    end.
Proof.
  intros R B. pose proof (reachable_draft_idle st R B) as S.
  split; [by rewrite sendMessage_accepted|]. split.
  - unfold step; simpl. rewrite run_jobs_idle; [done|].
    rewrite sendMessage_accepted by done. simpl.
    by apply reachable_Inv in R as (J & _).
  - apply network_step.
Qed.

Lemma submission_posts_question_once_witness :
  let st := sample_typed in
  let now := sample_now in
  blank (input st) = false /\
  network (sendMessage now st)
  = network st ++
    [{| url := ask_url;
        method := lit "POST";
        headers := [(lit "Content-Type", lit "application/json")];
        body := JSON_stringify [(lit "question", trim (input st))];
        signal := length (network st) |}] /\
  sendMessage now st = step (ClickSend now) st /\
  forall s e, reachable s -> enabled e s = true ->
    match e with
    | KeyDown _ _ _ | ClickSend _ => True
    | _ => network (step e s) = network s
    end.
Proof.
  split; [reflexivity|].
  apply (submission_posts_question_once sample_typed sample_now).
  - apply sample_typed_reachable.
  - reflexivity.
Defined.

(** Each turn of the event loop leaves the message list alone, appends a
    user message and a bot message, or runs one update by id that keeps
    roles and ids. *)
Lemma step_messages st e :
  reachable st -> enabled e st = true ->
  messages (step e st) = messages st \/
  (exists u b, messages (step e st) = messages st ++ [u; b]) \/
  exists id upd,
    (forall m, Msg.role (upd m) = Msg.role m) /\
    (forall m, Msg.id (upd m) = Msg.id m) /\
    messages (step e st) = update_by_id id upd (messages st).
Proof.
  intros R E. pose proof (reachable_Inv st R) as I.
  pose proof I as (J & _ & P).
  assert (Send : forall now,
    messages (run_jobs (sendMessage now st)) = messages st \/
    exists u b, messages (run_jobs (sendMessage now st))
                = messages st ++ [u; b]).
  { intros now.
    rewrite run_jobs_idle by (apply (Inv_sendMessage now st I)).
    destruct (blank (input st)) eqn:B;
      [left; by rewrite sendMessage_refused by auto|].
    destruct (isStreaming st) eqn:S;
      [left; by rewrite sendMessage_refused by auto|].
    right. rewrite sendMessage_accepted by done. by eexists _, _. }
  destruct (isStreaming st) eqn:S.
  - destruct (Inv_busy st I S) as [a Pa]. rewrite Pa in P.
    destruct P as (_ & Rf & Err & _).
    assert (C : concerns a e).
    { destruct e as [v|k sh now|now| | |c r|c r]; simpl in E |- *;
        rewrite ?S, ?Err, ?Pa in E; try done;
        apply bool_decide_eq_true in E;
        by apply enabled_settles_single in E as [-> _]. }
    destruct (step_concerns_messages st a e J Pa Rf E C)
      as [H|(upd & H1 & H2 & H)]; [by left|].
    right; right. by exists (act_id a), upd.
  - destruct e as [v|k sh now|now| | |c r|c r]; simpl in E;
      rewrite ?S in E; try done.
    + left. unfold step; simpl. by rewrite run_jobs_idle.
    + unfold step; simpl. unfold handleKey. destruct (_ && _).
      * destruct (Send now) as [H|H]; [by left|by right; left].
      * left. by rewrite run_jobs_idle.
    + unfold step; simpl.
      destruct (Send now) as [H|H]; [by left|by right; left].
    + left. unfold step; simpl. by rewrite run_jobs_idle.
    + rewrite (Inv_idle st I S) in E.
      by apply bool_decide_eq_true, Exists_nil in E.
    + rewrite (Inv_idle st I S) in E.
      by apply bool_decide_eq_true, Exists_nil in E.
Qed.



(** C9.  In every state reachable from the empty conversation the message
    list has even length and its roles alternate user, bot, user, bot, ...
    from the first position on.  No event shortens the list or moves a
    message: after any turn every message is at the position it had, with
    the same role and id (and untouched if it carries no id, as user
    messages do). *)
Theorem messages_alternate_and_persist st :
  reachable st ->
  Nat.Even (length (messages st)) /\
  (forall i m, messages st !! i = Some m -> Msg.role m = role_at i) /\
  (forall e, enabled e st = true ->
     length (messages st) <= length (messages (step e st)) /\
     forall i m, messages st !! i = Some m ->
       exists m', messages (step e st) !! i = Some m' /\ same_message m m').
Proof.
  intros R. pose proof (reachable_Inv st R) as (_ & A & _).
  split; [by apply alternates_even_length|].
  split; [intros i m; by apply alternates_lookup|].
  intros e E.
  destruct (step_messages st e R E)
    as [->|[(u & b & ->)|(id & upd & H1 & H2 & ->)]].
  - split; [done|]. intros i m Hm. by exists m.
  - split; [rewrite length_app; lia|]. intros i m Hm. exists m.
    split; [|done]. by apply lookup_app_l_Some.
  - split; [by rewrite length_update_by_id|]. intros i m Hm.
    destruct (update_by_id_same id upd H1 H2 _ _ _ Hm) as (m' & L & Sm & _).
    by exists m'.
Qed.

Lemma messages_alternate_and_persist_witness :
  let st := sample_waiting in
  Nat.Even (length (messages st)) /\
  (forall i m, messages st !! i = Some m -> Msg.role m = role_at i) /\
  (forall e, enabled e st = true ->
     length (messages st) <= length (messages (step e st)) /\
     forall i m, messages st !! i = Some m ->
       exists m', messages (step e st) !! i = Some m' /\ same_message m m').
Proof.
  apply (messages_alternate_and_persist sample_waiting).
  apply sample_waiting_reachable.
Defined.

(** C10.  An accepted submission (a draft that is not blank, in a
    reachable state) leaves the error text null and the draft empty at
    once, while its request is still waiting; and from there on, through any
    run of events, the error text is null in every state in which a request
    is in flight: a banner of an earlier request is never shown next to a
    running one. *)
Theorem submission_clears_banner_and_draft st now es :
  reachable st -> blank (input st) = false ->
  admissible es (sendMessage now st) = true ->
  error (sendMessage now st) = None /\
  input (sendMessage now st) = [] /\
  pending (sendMessage now st) <> [] /\
  (pending (run es (sendMessage now st)) <> [] ->
   error (run es (sendMessage now st)) = None).
Proof.
  intros R B A. pose proof (reachable_draft_idle st R B) as S.
  assert (R' : reachable (sendMessage now st)).
  { replace (sendMessage now st) with (step (ClickSend now) st).
    - constructor; [done|]. simpl. by rewrite S, truthy_trim, B.
    - unfold step; simpl. apply run_jobs_idle.
      rewrite sendMessage_accepted by done. simpl.
      by apply reachable_Inv in R as (J & _). }
  split; [by rewrite sendMessage_accepted|].
  split; [by rewrite sendMessage_accepted|].
  split.
  - rewrite sendMessage_accepted by done. simpl.
    intros H. by apply app_eq_nil in H as [_ ?].
  - intros Pn. pose proof (reachable_run es _ R' A) as R''.
    apply reachable_Inv in R'' as (_ & _ & P).
    destruct (pending (run es (sendMessage now st))) as [|a [|b l]];
      [done| |done].
    by destruct P as (_ & _ & E & _).
Qed.

Lemma submission_clears_banner_and_draft_witness :
  let st := sample_retyped in
  let now := (sample_now + 4000)%Z in
  let es := [FetchSettles 1 (Fulfilled {| status := 200 |})] in
  error st = Some banner_text /\
  blank (input st) = false /\
  admissible es (sendMessage now st) = true /\
  error (sendMessage now st) = None /\
  input (sendMessage now st) = [] /\
  pending (sendMessage now st) <> [] /\
  (pending (run es (sendMessage now st)) <> [] ->
   error (run es (sendMessage now st)) = None).
Proof.
  split; [reflexivity|]. split; [reflexivity|]. split; [reflexivity|].
  apply (submission_clears_banner_and_draft sample_retyped
           (sample_now + 4000)%Z
           [FetchSettles 1 (Fulfilled {| status := 200 |})]).
  - apply sample_retyped_reachable.
  - reflexivity.
  - reflexivity.
Defined.

(** * Further properties *)

(** ** What one turn can do *)

(** The next state of a turn, by the state it starts in: with nothing in
    flight the page stays as it is, takes a new draft, drops the banner or
    accepts a submission; with a request in flight the response arrives, or
    the request ends in the [try] block or in [catch]. *)
Lemma step_cases st e :
  reachable st -> enabled e st = true ->
  (isStreaming st = false /\ pending st = [] /\
   (step e st = st \/
    (exists v, step e st = setInput v st) \/
    step e st = setError None st \/
    exists now, blank (input st) = false /\ submission_clock e = Some now /\
                step e st = sendMessage now st)) \/
  (exists a, pending st = [a] /\ is_submission e = false /\
   (step e st
    = setPending [{| act_id := act_id a; act_signal := act_signal a;
                     act_at := AwaitJson |}] st \/
    (exists data,
       step e st
       = sendMessage_finally
           (sendMessage_try_end (act_id a) data (setPending [] st))) \/
    exists err,
      step e st
      = sendMessage_finally
          (sendMessage_catch (act_id a) err (setPending [] st)))).
Proof.
  intros R E. pose proof (reachable_Inv st R) as I.
  pose proof I as (J & _ & P).
  assert (Send : forall now,
    run_jobs (sendMessage now st) = st \/
    (blank (input st) = false /\
     run_jobs (sendMessage now st) = sendMessage now st)).
  { intros now.
    rewrite run_jobs_idle by (apply (Inv_sendMessage now st I)).
    destruct (blank (input st)) eqn:B;
      [left; by rewrite sendMessage_refused by auto|by right]. }
  destruct (isStreaming st) eqn:S.
  - right. destruct (Inv_busy st I S) as [a Pa]. rewrite Pa in P.
    destruct P as (_ & Rf & Err & _). exists a. split; [done|].
    destruct e as [v|k sh now|now| | |c r|c r]; simpl in E |- *;
      rewrite ?S, ?Err, ?Pa in E; try done.
    + split; [done|]. right; right. exists AbortError.
      by apply step_ClickStop.
    + split; [done|]. apply bool_decide_eq_true in E.
      apply enabled_settles_single in E as [-> At].
      rewrite step_FetchSettles by done.
      destruct r as [res|err]; simpl; [destruct (ok res); simpl|].
      * left. by destruct st.
      * right; right. by exists ServerError.
      * right; right. by exists err.
    + split; [done|]. apply bool_decide_eq_true in E.
      apply enabled_settles_single in E as [-> At].
      rewrite step_JsonSettles by done.
      destruct r as [data|err]; simpl.
      * right; left. by exists data.
      * right; right. by exists err.
  - left. split; [done|]. split; [by apply Inv_idle|].
    destruct e as [v|k sh now|now| | |c r|c r]; simpl in E;
      rewrite ?S in E; try done.
    + right; left. exists v. unfold step; simpl. by rewrite run_jobs_idle.
    + unfold step; simpl. unfold handleKey. destruct (_ && _).
      * destruct (Send now) as [H|[B H]]; [by left|].
        right; right; right. by exists now.
      * left. by rewrite run_jobs_idle.
    + unfold step; simpl.
      destruct (Send now) as [H|[B H]]; [by left|].
      right; right; right. by exists now.
    + right; right; left. unfold step; simpl. by rewrite run_jobs_idle.
    + rewrite (Inv_idle st I S) in E.
      by apply bool_decide_eq_true, Exists_nil in E.
    + rewrite (Inv_idle st I S) in E.
      by apply bool_decide_eq_true, Exists_nil in E.
Qed.

Lemma ending_role upd m : ending upd -> Msg.role (upd m) = Msg.role m.
Proof. by destruct 1. Qed.

Lemma ending_id upd m : ending upd -> Msg.id (upd m) = Msg.id m.
Proof. by destruct 1. Qed.

Lemma ending_isStreaming upd m :
  ending upd -> Msg.isStreaming (upd m) = Some false.
Proof. by destruct 1. Qed.

Lemma messages_try_end id data st :
  messages (sendMessage_finally (sendMessage_try_end id data st))
  = update_by_id id (answered data) (messages st).
Proof. reflexivity. Qed.

Lemma messages_catch id err st :
  exists upd, ending upd /\
    messages (sendMessage_finally (sendMessage_catch id err st))
    = update_by_id id upd (messages st).
Proof.
  unfold sendMessage_catch. destruct (is_abort err).
  - exists stopped. split; [constructor|done].
  - exists failed. split; [constructor|done].
Qed.

Lemma update_by_id_snoc id upd l m :
  update_by_id id upd (l ++ [m])
  = update_by_id id upd l ++ [if id_matches id m then upd m else m].
Proof. unfold update_by_id. by rewrite fmap_app. Qed.

Lemma catch_projections id err st :
  let st' := sendMessage_finally (sendMessage_catch id err st) in
  pending st' = pending st /\ network st' = network st /\
  input st' = input st /\ isStreaming st' = false /\ abortRef st' = None /\
  error st' = if is_abort err then error st else Some banner_text.
Proof. unfold sendMessage_catch. by destruct (is_abort err). Qed.

(** ** Messages at rest stay at rest *)

Lemma settled_userMessage draft :
  blank draft = false -> settled (userMessage (trim draft)).
Proof. intros B. unfold settled; simpl. repeat split. by exists draft. Qed.

Lemma settled_update id upd m :
  ending upd -> settled m ->
  settled (if id_matches id m then upd m else m).
Proof.
  intros U H. destruct (id_matches id m) eqn:E; [|done].
  apply id_matches_spec in E. unfold settled in *.
  rewrite (ending_role upd m U). destruct (Msg.role m).
  - destruct H as (N & _). congruence.
  - rewrite (ending_id upd m U), (ending_isStreaming upd m U).
    by destruct H.
Qed.

Lemma settled_update_placeholder id upd :
  ending upd -> settled (upd (placeholder id)).
Proof.
  intros U. unfold settled.
  rewrite (ending_role _ _ U), (ending_id _ _ U), (ending_isStreaming _ _ U).
  done.
Qed.

Lemma Forall_settled_ending id upd l :
  ending upd -> Forall settled l ->
  Forall settled (update_by_id id upd (l ++ [placeholder id])).
Proof.
  intros U H. rewrite update_by_id_snoc, id_matches_placeholder.
  apply Forall_app. split.
  - unfold update_by_id. apply Forall_fmap.
    eapply List.Forall_impl; [|exact H]. intros m Hm. by apply settled_update.
  - apply Forall_singleton. by apply settled_update_placeholder.
Qed.

Lemma Settled_but_last_step st e :
  reachable st -> enabled e st = true ->
  Settled_but_last st -> Settled_but_last (step e st).
Proof.
  intros R E H. unfold Settled_but_last in *.
  destruct (step_cases st e R E)
    as [(S & P & [->|[(v & ->)|[->|(now & B & _ & ->)]]])
       |(a & P & _ & [->|[(data & ->)|(err & ->)]])];
    rewrite P in H.
  - by rewrite P.
  - simpl. by rewrite P.
  - simpl. by rewrite P.
  - rewrite sendMessage_accepted by done. simpl. rewrite P. simpl.
    exists (messages st ++ [userMessage (trim (input st))]).
    split; [by rewrite <- app_assoc|].
    apply Forall_app. split; [done|].
    apply Forall_singleton. by apply settled_userMessage.
  - done.
  - destruct H as (l & M & H). simpl. rewrite M.
    apply Forall_settled_ending; [constructor|done].
  - destruct H as (l & M & H).
    destruct (catch_projections (act_id a) err (setPending [] st))
      as (-> & _).
    destruct (messages_catch (act_id a) err (setPending [] st))
      as (upd & U & ->).
    simpl. rewrite M. by apply Forall_settled_ending.
Qed.

Lemma reachable_Settled st : reachable st -> Settled_but_last st.
Proof.
  induction 1 as [|st e R IH E]; [by constructor|].
  by apply Settled_but_last_step.
Qed.

(** ** The banner comes with the apology *)

Lemma Banner_with_apology_step st e :
  reachable st -> enabled e st = true ->
  Banner_with_apology st -> Banner_with_apology (step e st).
Proof.
  intros R E H. unfold Banner_with_apology in *.
  destruct (step_cases st e R E)
    as [(S & P & [->|[(v & ->)|[->|(now & B & _ & ->)]]])
       |(a & P & _ & Hs)]; try done.
  - by rewrite sendMessage_accepted.
  - assert (Ha : a ∈ pending st)
      by (rewrite P; by apply list_elem_of_singleton).
    destruct (reachable_pending st a R Ha)
      as (_ & _ & _ & _ & Err & _ & l & M).
    destruct Hs as [->|[(data & ->)|(err & ->)]].
    + simpl. by rewrite Err.
    + simpl. by rewrite Err.
    + destruct (is_abort err) eqn:Ab.
      * unfold sendMessage_catch. rewrite Ab. simpl. by rewrite Err.
      * rewrite sendMessage_catch_other by done. simpl.
        split; [done|]. split; [done|]. rewrite M.
        rewrite update_by_id_snoc, id_matches_placeholder.
        by eexists _, _.
Qed.

Lemma reachable_Banner st : reachable st -> Banner_with_apology st.
Proof.
  induction 1 as [|st e R IH E]; [done|].
  by apply Banner_with_apology_step.
Qed.

(** ** The log and the conversation *)

Lemma update_by_id_userMessage id upd l i q :
  l !! i = Some (userMessage q) ->
  update_by_id id upd l !! i = Some (userMessage q).
Proof. intros H. by rewrite lookup_update_by_id, H. Qed.

Lemma Log_matches_update id upd st st' :
  Log_matches st ->
  messages st' = update_by_id id upd (messages st) ->
  network st' = network st ->
  Log_matches st'.
Proof.
  intros (L & H) M N. unfold Log_matches. rewrite M, N.
  split; [unfold update_by_id; by rewrite length_fmap|].
  intros i req Hr. destruct (H i req Hr) as (q & Hq & ->).
  exists q. split; [by apply update_by_id_userMessage|done].
Qed.

Lemma Log_matches_step st e :
  reachable st -> enabled e st = true ->
  Log_matches st -> Log_matches (step e st).
Proof.
  intros R E H.
  destruct (step_cases st e R E)
    as [(S & P & [->|[(v & ->)|[->|(now & B & _ & ->)]]])
       |(a & P & _ & [->|[(data & ->)|(err & ->)]])]; try done.
  - rewrite sendMessage_accepted by done.
    destruct H as (L & H). unfold Log_matches; simpl.
    rewrite !length_app; simpl. split; [lia|].
    intros i req Hr.
    destruct (decide (i < length (network st))) as [Hi|Hi].
    + rewrite lookup_app_l in Hr by done.
      destruct (H i req Hr) as (q & Hq & ->). exists q.
      split; [|done]. rewrite lookup_app_l; [done|lia].
    + destruct (decide (i = length (network st))) as [->|Hn].
      * rewrite list_lookup_middle in Hr by done.
        injection Hr as <-. exists (trim (input st)).
        split; [|done]. apply list_lookup_middle. lia.
      * apply lookup_lt_Some in Hr. rewrite length_app in Hr.
        simpl in Hr. lia.
  - by eapply Log_matches_update.
  - destruct (messages_catch (act_id a) err (setPending [] st))
      as (upd & _ & M).
    eapply Log_matches_update; [exact H|exact M|].
    by destruct (catch_projections (act_id a) err (setPending [] st))
      as (_ & -> & _).
Qed.

Lemma reachable_Log_matches st : reachable st -> Log_matches st.
Proof.
  induction 1 as [|st e R IH E]; [by split|].
  by apply Log_matches_step.
Qed.

(** ** Every message is at rest or is the placeholder in flight *)

Lemma message_cases st i m :
  reachable st -> messages st !! i = Some m ->
  (settled m /\ (isStreaming st = true -> S i < length (messages st))) \/
  (isStreaming st = true /\ S i = length (messages st) /\
   exists a, pending st = [a] /\ m = placeholder (act_id a)).
Proof.
  intros R Hm. pose proof (reachable_Settled st R) as H.
  pose proof (reachable_Inv st R) as I. unfold Settled_but_last in H.
  destruct (isStreaming st) eqn:S.
  - destruct (Inv_busy st I S) as [a P]. rewrite P in H.
    destruct H as (l & M & H). rewrite M in Hm |- *.
    rewrite length_app. simpl.
    destruct (decide (i < length l)) as [Hi|Hi].
    + left. rewrite lookup_app_l in Hm by done.
      split; [|lia]. eapply Forall_lookup_1; [exact H|exact Hm].
    + right. pose proof (lookup_lt_Some _ _ _ Hm) as Hl.
      rewrite length_app in Hl. simpl in Hl.
      assert (i = length l) as -> by lia.
      rewrite list_lookup_middle in Hm by done. injection Hm as <-.
      split; [done|]. split; [lia|]. by exists a.
  - left. rewrite (Inv_idle st I S) in H.
    split; [|done]. eapply Forall_lookup_1; [exact H|exact Hm].
Qed.

Lemma settled_not_typing m : settled m -> shows_typing m = false.
Proof.
  unfold settled, shows_typing. destruct (Msg.role m).
  - intros (_ & _ & -> & _). done.
  - intros (_ & ->). done.
Qed.

Lemma sendMessage_changes now st :
  blank (input st) = false -> isStreaming st = false ->
  sendMessage now st <> st.
Proof.
  intros B S H. apply (f_equal (fun s => length (network s))) in H.
  rewrite sendMessage_accepted in H by done. simpl in H.
  rewrite length_app in H. simpl in H. lia.
Qed.

(** * Properties beyond the claims *)

(** X1.  In every reachable state the conversation has two messages for
    each request sent, request [i] of the log is the [POST] of the question
    that the user message at position [2 * i] shows, with the signal of
    controller [i]; in particular the welcome screen is rendered exactly
    while nothing was ever sent. *)
Theorem requests_match_user_messages st :
  reachable st ->
  length (messages st) = 2 * length (network st) /\
  (forall i req, network st !! i = Some req ->
     exists q, messages st !! (2 * i) = Some (userMessage q) /\
               req = ask_request q i) /\
  (shows_welcome st = true <-> network st = []).
Proof.
  intros R. destruct (reachable_Log_matches st R) as (L & H).
  split; [done|]. split; [done|].
  unfold shows_welcome. rewrite Nat.eqb_eq, L.
  destruct (network st); simpl; split; (done || lia).
Qed.

Lemma requests_match_user_messages_witness :
  let st := sample_retyped in
  length (messages st) = 2 * length (network st) /\
  (forall i req, network st !! i = Some req ->
     exists q, messages st !! (2 * i) = Some (userMessage q) /\
               req = ask_request q i) /\
  (shows_welcome st = true <-> network st = []).
Proof.
  apply (requests_match_user_messages sample_retyped).
  apply sample_retyped_reachable.
Defined.

(** X2.  Every user message of a reachable state is as [sendMessage] made
    it: it has only a role and a text, and the text is not empty and
    neither starts nor ends with white space. *)
Theorem user_messages_are_trimmed st i m :
  reachable st -> messages st !! i = Some m -> Msg.role m = user ->
  m = userMessage (Msg.text m) /\
  Msg.text m <> [] /\
  (forall c t, Msg.text m = c :: t -> is_white_space c = false) /\
  (forall c t, Msg.text m = t ++ [c] -> is_white_space c = false).
Proof.
  intros R Hm Hu.
  destruct (message_cases st i m R Hm) as [[H _]|(_ & _ & a & _ & ->)];
    [|done].
  unfold settled in H. rewrite Hu in H.
  destruct H as (Hi & Hs & Hst & He & d & B & T).
  split; [|split].
  - destruct m; simpl in *. by subst.
  - rewrite T. intros N. apply trim_nil in N. congruence.
  - rewrite T. destruct (trim_spec d) as (_ & _ & _ & _ & _ & H1 & H2).
    done.
Qed.

Lemma user_messages_are_trimmed_witness :
  let st := sample_answered in
  let m := userMessage (lit "What are the fees?") in
  m = userMessage (Msg.text m) /\
  Msg.text m <> [] /\
  (forall c t, Msg.text m = c :: t -> is_white_space c = false) /\
  (forall c t, Msg.text m = t ++ [c] -> is_white_space c = false).
Proof.
  apply (user_messages_are_trimmed sample_answered 0
           (userMessage (lit "What are the fees?"))).
  - apply sample_answered_reachable.
  - reflexivity.
  - reflexivity.
Defined.

(** X3.  In a reachable state a message is rendered as the typing dots
    exactly when a request is in flight and the message is the last of the
    conversation: the dots never stay behind on a finished message, and
    the request in flight always shows them. *)
Theorem typing_dots_mark_the_request_in_flight st i m :
  reachable st -> messages st !! i = Some m ->
  (shows_typing m = true <->
   isStreaming st = true /\ S i = length (messages st)).
Proof.
  intros R Hm.
  destruct (message_cases st i m R Hm)
    as [[H L]|(S & L & a & _ & ->)].
  - rewrite (settled_not_typing m H). split; [done|].
    intros [S E]. specialize (L S). lia.
  - done.
Qed.

Lemma typing_dots_mark_the_request_in_flight_witness :
  let st := sample_reading in
  let m := placeholder sample_now in
  messages st !! 1 = Some m /\
  (shows_typing m = true <->
   isStreaming st = true /\ 2 = length (messages st)).
Proof.
  split; [reflexivity|].
  apply (typing_dots_mark_the_request_in_flight sample_reading 1
           (placeholder sample_now)).
  - apply sample_reading_reachable.
  - reflexivity.
Defined.

(** X4.  In a reachable state a list of sources is rendered only under a
    bot message whose [isStreaming] is false: never under a user message
    and never next to the typing dots. *)
Theorem sources_only_under_finished_bot_messages st i m :
  reachable st -> messages st !! i = Some m -> shows_sources m = true ->
  Msg.role m = bot /\ Msg.isStreaming m = Some false /\
  shows_typing m = false.
Proof.
  intros R Hm Hs.
  destruct (message_cases st i m R Hm) as [[H _]|(_ & _ & a & _ & ->)];
    [|done].
  pose proof (settled_not_typing m H) as T.
  unfold settled in H. unfold shows_sources in Hs.
  destruct (Msg.role m).
  - destruct H as (_ & N & _). by rewrite N in Hs.
  - by destruct H as (_ & ->).
Qed.

Lemma sources_only_under_finished_bot_messages_witness :
  let st := sample_answered in
  let m := answered sample_data (placeholder sample_now) in
  messages st !! 1 = Some m /\ shows_sources m = true /\
  Msg.role m = bot /\ Msg.isStreaming m = Some false /\
  shows_typing m = false.
Proof.
  split; [reflexivity|]. split; [reflexivity|].
  apply (sources_only_under_finished_bot_messages sample_answered 1
           (answered sample_data (placeholder sample_now))).
  - apply sample_answered_reachable.
  - reflexivity.
  - reflexivity.
Defined.

(** X5.  In a reachable state [abortRef.current] holds a controller
    exactly while [isStreaming] is set, and then it is the controller of
    the one request in flight; so [stopGeneration] has something to abort
    whenever the Stop button is rendered, and called with nothing in
    flight it leaves the page as it is. *)
Theorem abortRef_tracks_the_request_in_flight st :
  reachable st ->
  (abortRef st = None <-> isStreaming st = false) /\
  (isStreaming st = false <-> pending st = []) /\
  (forall c, abortRef st = Some c ->
     exists a, pending st = [a] /\ act_signal a = c) /\
  (isStreaming st = false -> stopGeneration st = st).
Proof.
  intros R. pose proof (reachable_Inv st R) as I.
  destruct (isStreaming st) eqn:S.
  - destruct (Inv_busy st I S) as [a P].
    destruct I as (_ & _ & H). rewrite P in H.
    destruct H as (_ & Rf & _). rewrite Rf, P.
    repeat split; try done.
    intros c [= <-]. by exists a.
  - pose proof (Inv_idle st I S) as P.
    destruct I as (_ & _ & H). rewrite P in H. destruct H as (_ & Rf).
    rewrite Rf. repeat split; try done.
    intros _. unfold stopGeneration. by rewrite Rf.
Qed.

Lemma abortRef_tracks_the_request_in_flight_witness :
  let st := sample_reading in
  (abortRef st = None <-> isStreaming st = false) /\
  (isStreaming st = false <-> pending st = []) /\
  (forall c, abortRef st = Some c ->
     exists a, pending st = [a] /\ act_signal a = c) /\
  (isStreaming st = false -> stopGeneration st = st).
Proof.
  apply (abortRef_tracks_the_request_in_flight sample_reading).
  apply sample_reading_reachable.
Defined.

(** X6.  The Send button and the handler agree in every state: the button
    is rendered and enabled exactly when [sendMessage] would send the
    request for the trimmed draft, and whenever it is not, [sendMessage]
    leaves the page as it is. *)
Theorem send_button_enabled_iff_accepted st now :
  (enabled (ClickSend now) st = true <->
   network (sendMessage now st)
   = network st ++ [ask_request (trim (input st)) (length (network st))]) /\
  (enabled (ClickSend now) st = false <-> sendMessage now st = st).
Proof.
  simpl. rewrite truthy_trim.
  destruct (isStreaming st) eqn:S; simpl.
  - rewrite sendMessage_refused by auto. split; split; try done.
    intros H. apply (f_equal length) in H. rewrite length_app in H.
    simpl in H. lia.
  - destruct (blank (input st)) eqn:B; simpl.
    + rewrite sendMessage_refused by auto. split; split; try done.
      intros H. apply (f_equal length) in H. rewrite length_app in H.
      simpl in H. lia.
    + split; split; try done.
      * intros _. by rewrite sendMessage_accepted.
      * intros H. by apply sendMessage_changes in H.
Qed.

(** X7.  Of all key presses in the textarea only Enter without Shift can
    change the page, and it does exactly when the draft is not blank and
    nothing is streaming; it then does what a click on Send does.  Shift
    with Enter and every other key leave the state as it is. *)
Theorem only_plain_enter_submits st key shiftKey now :
  (handleKey key shiftKey now st <> st <->
   key = lit "Enter" /\ shiftKey = false /\
   blank (input st) = false /\ isStreaming st = false) /\
  (handleKey key shiftKey now st <> st ->
   handleKey key shiftKey now st = sendMessage now st).
Proof.
  unfold handleKey.
  destruct (bool_decide (key = lit "Enter")) eqn:K; simpl.
  - apply bool_decide_eq_true in K. destruct shiftKey; simpl.
    + split; [|done]. split; [done|]. by intros (_ & ? & _).
    + split; [|done]. split.
      * intros H. split; [done|]. split; [done|].
        destruct (blank (input st)) eqn:B;
          [by rewrite sendMessage_refused in H by auto|].
        destruct (isStreaming st) eqn:S;
          [by rewrite sendMessage_refused in H by auto|done].
      * intros (_ & _ & B & S). by apply sendMessage_changes.
  - apply bool_decide_eq_false in K.
    split; [|done]. split; [done|]. by intros (? & _).
Qed.

(** X8.  In a reachable state the error text is null or the one
    connectivity message; and when the banner is rendered, nothing is in
    flight and the conversation ends with the bot message that carries the
    apology text and [isError]. *)
Theorem banner_comes_with_the_apology st :
  reachable st ->
  (error st = None \/ error st = Some banner_text) /\
  (shows_banner st = true ->
   isStreaming st = false /\ pending st = [] /\
   exists m, list.last (messages st) = Some m /\
     Msg.role m = bot /\ Msg.text m = apology_text /\
     Msg.isError m = Some true /\ shows_typing m = false).
Proof.
  intros R. pose proof (reachable_Banner st R) as H.
  unfold Banner_with_apology, shows_banner in *.
  destruct (error st) as [e|]; [|by split; [left|]].
  destruct H as (-> & S & l & id & M).
  split; [by right|]. intros _. split; [done|].
  split; [by apply Inv_idle; [apply reachable_Inv|]|].
  eexists. rewrite M, last_snoc. done.
Qed.

Lemma banner_comes_with_the_apology_witness :
  let st := sample_retyped in
  shows_banner st = true /\
  (error st = None \/ error st = Some banner_text) /\
  (shows_banner st = true ->
   isStreaming st = false /\ pending st = [] /\
   exists m, list.last (messages st) = Some m /\
     Msg.role m = bot /\ Msg.text m = apology_text /\
     Msg.isError m = Some true /\ shows_typing m = false).
Proof.
  split; [reflexivity|].
  apply (banner_comes_with_the_apology sample_retyped).
  apply sample_retyped_reachable.
Defined.

Lemma same_message_trans m1 m2 m3 :
  same_message m1 m2 -> same_message m2 m3 -> same_message m1 m3.
Proof.
  intros (R1 & I1 & N1) (R2 & I2 & N2). split; [congruence|].
  split; [congruence|]. intros N. rewrite N2; [by apply N1|congruence].
Qed.

(** X9.  Along any run of events from a reachable state the conversation
    only grows: every message stays at its position with its role and id,
    and a message without an id (a user message) stays as it is. *)
Theorem conversation_only_grows es st :
  reachable st -> admissible es st = true ->
  length (messages st) <= length (messages (run es st)) /\
  forall i m, messages st !! i = Some m ->
    exists m', messages (run es st) !! i = Some m' /\ same_message m m'.
Proof.
  revert st. induction es as [|e es IH]; intros st R A; simpl.
  - split; [done|]. intros i m Hm. by exists m.
  - simpl in A. apply andb_true_iff in A as [E A].
    assert (R' : reachable (step e st)) by (by constructor).
    destruct (IH (step e st) R' A) as (L & H).
    assert (K : length (messages st) <= length (messages (step e st)) /\
      forall i m, messages st !! i = Some m ->
        exists m', messages (step e st) !! i = Some m' /\ same_message m m').
    { destruct (step_messages st e R E)
        as [->|[(u & b & ->)|(id & upd & H1 & H2 & ->)]].
      - split; [done|]. intros i m Hm. by exists m.
      - split; [rewrite length_app; lia|]. intros i m Hm. exists m.
        split; [by apply lookup_app_l_Some|done].
      - split; [by rewrite length_update_by_id|]. intros i m Hm.
        destruct (update_by_id_same id upd H1 H2 _ _ _ Hm)
          as (m' & L' & Sm & _).
        by exists m'. }
    destruct K as (L0 & K). split; [lia|].
    intros i m Hm. destruct (K i m Hm) as (m1 & H1 & S1).
    destruct (H i m1 H1) as (m2 & H2 & S2). exists m2.
    split; [done|]. by eapply same_message_trans.
Qed.

Lemma conversation_only_grows_witness :
  let st := sample_waiting in
  let es := [FetchSettles 0 (Fulfilled {| status := 200 |});
             JsonSettles 0 (Fulfilled sample_data);
             Change (lit "And hostel?"); ClickSend (sample_now + 9000)] in
  length (messages st) <= length (messages (run es st)) /\
  forall i m, messages st !! i = Some m ->
    exists m', messages (run es st) !! i = Some m' /\ same_message m m'.
Proof.
  apply (conversation_only_grows
           [FetchSettles 0 (Fulfilled {| status := 200 |});
            JsonSettles 0 (Fulfilled sample_data);
            Change (lit "And hostel?"); ClickSend (sample_now + 9000)]
           sample_waiting).
  - apply sample_waiting_reachable.
  - reflexivity.
Defined.

Lemma network_step_cases st e :
  reachable st -> enabled e st = true ->
  network (step e st) = network st \/
  (is_submission e = true /\
   exists req, network (step e st) = network st ++ [req]).
Proof.
  intros R E.
  destruct (step_cases st e R E)
    as [(S & P & [->|[(v & ->)|[->|(now & B & C & ->)]]])
       |(a & P & _ & [->|[(data & ->)|(err & ->)]])];
    try (by left).
  - right. split; [by destruct e|].
    rewrite sendMessage_accepted by done. by eexists.
  - left. by destruct (catch_projections (act_id a) err (setPending [] st))
      as (_ & -> & _).
Qed.

(** X10.  Along any run of events from a reachable state the log of
    requests only grows at its end, and by no more requests than the run
    has submissions (Enter presses and clicks on Send): a request once sent
    is never sent again, and nothing is sent unasked. *)
Theorem requests_only_from_submissions es st :
  reachable st -> admissible es st = true ->
  exists more,
    network (run es st) = network st ++ more /\
    length more <= length (List.filter is_submission es).
Proof.
  revert st. induction es as [|e es IH]; intros st R A; simpl.
  - exists []. by rewrite app_nil_r.
  - simpl in A. apply andb_true_iff in A as [E A].
    assert (R' : reachable (step e st)) by (by constructor).
    destruct (IH (step e st) R' A) as (more & -> & L).
    destruct (network_step_cases st e R E) as [->|(-> & req & ->)].
    + exists more. split; [done|]. destruct (is_submission e); simpl; lia.
    + exists (req :: more). split; [by rewrite <- app_assoc|]. simpl. lia.
Qed.

Lemma requests_only_from_submissions_witness :
  let st := sample_waiting in
  let es := [FetchSettles 0 (Rejected {| name := lit "TypeError" |});
             KeyDown (lit "Enter") false (sample_now + 500);
             Change (lit "again"); KeyDown (lit "Enter") true 0;
             ClickSend (sample_now + 9000)] in
  exists more,
    network (run es st) = network st ++ more /\
    length more <= length (List.filter is_submission es).
Proof.
  apply (requests_only_from_submissions
           [FetchSettles 0 (Rejected {| name := lit "TypeError" |});
            KeyDown (lit "Enter") false (sample_now + 500);
            Change (lit "again"); KeyDown (lit "Enter") true 0;
            ClickSend (sample_now + 9000)]
           sample_waiting).
  - apply sample_waiting_reachable.
  - reflexivity.
Defined.

Lemma send_button_enabled_iff_accepted_witness :
  let st := sample_typed in
  let now := sample_now in
  enabled (ClickSend now) st = true /\
  (enabled (ClickSend now) st = true <->
   network (sendMessage now st)
   = network st ++ [ask_request (trim (input st)) (length (network st))]) /\
  (enabled (ClickSend now) st = false <-> sendMessage now st = st).
Proof.
  split; [reflexivity|].
  apply (send_button_enabled_iff_accepted sample_typed sample_now).
Defined.

Lemma only_plain_enter_submits_witness :
  let st := sample_typed in
  handleKey (lit "Enter") true sample_now st = st /\
  (handleKey (lit "Enter") true sample_now st <> st <->
   lit "Enter" = lit "Enter" /\ true = false /\
   blank (input st) = false /\ isStreaming st = false) /\
  (handleKey (lit "Enter") true sample_now st <> st ->
   handleKey (lit "Enter") true sample_now st = sendMessage sample_now st).
Proof.
  split; [reflexivity|].
  apply (only_plain_enter_submits sample_typed (lit "Enter") true sample_now).
Defined.

Lemma lookup_update_by_id_other id upd l i m :
  l !! i = Some m -> Msg.id m <> Some id ->
  update_by_id id upd l !! i = Some m.
Proof.
  intros H N. rewrite lookup_update_by_id, H. simpl.
  destruct (id_matches id m) eqn:E; [|done].
  by apply id_matches_spec in E.
Qed.

(** X11.  A message is final once no request works on it, as long as the
    clock does not repeat its id: along any run of events from a reachable
    state, a message whose id is neither the id of the request in flight
    nor the [Date.now()] value of a submission of the run is found
    unchanged at its position at the end of the run.  (User messages carry
    no id, so they always qualify.) *)
Theorem finished_message_is_final es st i m :
  reachable st -> admissible es st = true ->
  messages st !! i = Some m ->
  (forall a, a ∈ pending st -> Msg.id m <> Some (act_id a)) ->
  (forall e now, e ∈ es -> submission_clock e = Some now ->
                 Msg.id m <> Some now) ->
  messages (run es st) !! i = Some m.
Proof.
  revert st. induction es as [|e es IH]; intros st R A Hm Hp Hc; [done|].
  simpl in *. apply andb_true_iff in A as [E A].
  assert (R' : reachable (step e st)) by (by constructor).
  assert (Hc' : forall e' now, e' ∈ es -> submission_clock e' = Some now ->
                               Msg.id m <> Some now).
  { intros e' now He'. apply Hc. by apply list_elem_of_further. }
  apply (IH (step e st) R' A); [| |exact Hc'].
  - destruct (step_cases st e R E)
      as [(S & P & [->|[(v & ->)|[->|(now & B & C & ->)]]])
         |(a & P & _ & [->|[(data & ->)|(err & ->)]])]; try done.
    + rewrite sendMessage_accepted by done. simpl.
      by apply lookup_app_l_Some.
    + simpl. apply lookup_update_by_id_other; [done|].
      apply Hp. rewrite P. by apply list_elem_of_singleton.
    + destruct (messages_catch (act_id a) err (setPending [] st))
        as (upd & _ & ->).
      simpl. apply lookup_update_by_id_other; [done|].
      apply Hp. rewrite P. by apply list_elem_of_singleton.
  - destruct (step_cases st e R E)
      as [(S & P & [->|[(v & ->)|[->|(now & B & C & ->)]]])
         |(a & P & _ & [->|[(data & ->)|(err & ->)]])]; try done.
    + rewrite sendMessage_accepted by done. simpl. rewrite P. simpl.
      intros a Ha. apply list_elem_of_singleton in Ha as ->. simpl.
      apply (Hc e now); [by apply list_elem_of_here|done].
    + simpl. intros a' Ha. apply list_elem_of_singleton in Ha as ->. simpl.
      apply Hp. rewrite P. by apply list_elem_of_singleton.
    + simpl. intros a' Ha. by apply elem_of_nil in Ha.
    + destruct (catch_projections (act_id a) err (setPending [] st))
        as (-> & _).
      simpl. intros a' Ha. by apply elem_of_nil in Ha.
Qed.

Lemma finished_message_is_final_witness :
  let st := sample_answered in
  let es := [Change (lit "And hostel?"); ClickSend (sample_now + 9000);
             ClickStop] in
  let m := answered sample_data (placeholder sample_now) in
  messages st !! 1 = Some m /\ messages (run es st) !! 1 = Some m.
Proof.
  split; [reflexivity|].
  apply (finished_message_is_final
           [Change (lit "And hostel?"); ClickSend (sample_now + 9000);
            ClickStop]
           sample_answered 1
           (answered sample_data (placeholder sample_now))).
  - apply sample_answered_reachable.
  - reflexivity.
  - reflexivity.
  - intros a Ha. by apply elem_of_nil in Ha.
  - intros e now He Hc.
    repeat (apply elem_of_cons in He as [->|He]); simpl in Hc;
      try discriminate; [|by apply elem_of_nil in He].
    injection Hc as <-. discriminate.
Defined.

(** ** The question can be read back from the body *)

Local Open Scope N_scope.

Lemma unhex_hex_digit n : n < 16 -> unhex_digit (hex_digit n) = Some n.
Proof.
  intros H. unfold hex_digit, unhex_digit.
  destruct (N.ltb_spec n 10) as [Lt|Ge].
  - assert ((0x30 <=? 0x30 + n) && (0x30 + n <=? 0x39) = true) as ->.
    { apply andb_true_iff. split; apply N.leb_le; lia. }
    f_equal. lia.
  - assert ((0x30 <=? 0x61 + (n - 10)) && (0x61 + (n - 10) <=? 0x39)
            = false) as ->.
    { apply andb_false_iff. right. apply N.leb_gt. lia. }
    assert ((0x61 <=? 0x61 + (n - 10)) && (0x61 + (n - 10) <=? 0x66)
            = true) as ->.
    { apply andb_true_iff. split; apply N.leb_le; lia. }
    f_equal. lia.
Qed.

Lemma unhex4_unicode_escape c t :
  c < 65536 ->
  unquote_units (unicode_escape c ++ t) = cons c <$> unquote_units t.
Proof.
  intros H. unfold unicode_escape.
  change (unquote_units
            ([0x5C; 0x75; hex_digit (c / 4096 mod 16);
              hex_digit (c / 256 mod 16); hex_digit (c / 16 mod 16);
              hex_digit (c mod 16)] ++ t))
    with (match unhex4 (hex_digit (c / 4096 mod 16))
                  (hex_digit (c / 256 mod 16)) (hex_digit (c / 16 mod 16))
                  (hex_digit (c mod 16)) with
          | Some v => cons v <$> unquote_units t
          | None => None
          end).
  unfold unhex4.
  rewrite !unhex_hex_digit by (apply N.mod_upper_bound; lia).
  replace (((c / 4096 mod 16 * 16 + c / 256 mod 16) * 16 + c / 16 mod 16)
           * 16 + c mod 16) with c; [done|].
  zify. Z.to_euclidean_division_equations. lia.
Qed.

Lemma unquote_quote_unit c t :
  unquote_units (quote_unit c ++ t) = cons c <$> unquote_units t.
Proof.
  unfold quote_unit.
  repeat (match goal with
          | |- context [if ?x =? ?y then _ else _] =>
              destruct (N.eqb_spec x y) as [->|]; [reflexivity|]
          end).
  destruct (_ || _) eqn:K.
  - apply unhex4_unicode_escape.
    unfold is_high_surrogate, is_low_surrogate in K.
    apply orb_true_iff in K as [K|K];
      [apply orb_true_iff in K as [K|K]|];
      [apply N.ltb_lt in K; lia
      |apply andb_true_iff in K as [_ K]; apply N.leb_le in K; lia
      |apply andb_true_iff in K as [_ K]; apply N.leb_le in K; lia].
  - simpl. by destruct (N.eqb_spec c 0x5C).
Qed.

Lemma unquote_surrogate_pair c d t :
  is_high_surrogate c && is_low_surrogate d = true ->
  unquote_units (c :: d :: t) = cons c <$> (cons d <$> unquote_units t).
Proof.
  intros K. apply andb_true_iff in K as [Hc Hd].
  unfold is_high_surrogate, is_low_surrogate in *.
  apply andb_true_iff in Hc as [Hc _]. apply andb_true_iff in Hd as [Hd _].
  apply N.leb_le in Hc, Hd. simpl.
  destruct (N.eqb_spec c 0x5C); [lia|].
  destruct (N.eqb_spec d 0x5C); [lia|]. done.
Qed.

Lemma unquote_quote_units s : unquote_units (quote_units s) = Some s.
Proof.
  remember (length s) as n eqn:L. revert s L.
  induction n as [n IH] using lt_wf_ind. intros s L.
  destruct s as [|c [|d s]]; [done| |].
  - simpl. rewrite <- (app_nil_r (quote_unit c)), unquote_quote_unit. done.
  - change (quote_units (c :: d :: s))
      with (if is_high_surrogate c && is_low_surrogate d
            then c :: d :: quote_units s
            else quote_unit c ++ quote_units (d :: s)).
    destruct (is_high_surrogate c && is_low_surrogate d) eqn:K.
    + rewrite unquote_surrogate_pair by done.
      rewrite (IH (length s)); [done| |done]. simpl in L. lia.
    + rewrite unquote_quote_unit.
      rewrite (IH (length (d :: s))); [done| |done]. simpl in L |- *. lia.
Qed.

Local Close Scope N_scope.

Lemma quote_units_inj s1 s2 : quote_units s1 = quote_units s2 -> s1 = s2.
Proof.
  intros H. apply (f_equal unquote_units) in H.
  rewrite !unquote_quote_units in H. by injection H.
Qed.

(** X12.  The body of a request determines the question: two drafts whose
    requests have the same JSON text are the same string, whatever
    quotation marks, backslashes, control characters or surrogates they
    hold. *)
Theorem request_body_determines_question q1 q2 c1 c2 :
  body (ask_request q1 c1) = body (ask_request q2 c2) -> q1 = q2.
Proof.
  unfold ask_request, JSON_stringify; simpl. unfold QuoteJSONString.
  intros H. apply quote_units_inj.
  injection H as H.
  apply app_inv_tail in H. apply app_inv_tail in H. done.
Qed.

Lemma request_body_determines_question_witness :
  let q1 := trim sample_draft in
  let q2 := lit "What are the fees?" in
  body (ask_request q1 0) = body (ask_request q2 1) /\ q1 = q2.
Proof.
  split; [reflexivity|].
  apply (request_body_determines_question (trim sample_draft)
           (lit "What are the fees?") 0 1).
  reflexivity.
Defined.

(** X13.  While a request is in flight the draft is empty and the page
    takes no typing, no key and no click on Send: the only events that can
    happen are the Stop button and the settling of the request.  So no
    question can be typed ahead or queued behind a running one. *)
Theorem nothing_typed_while_streaming st e :
  reachable st -> isStreaming st = true -> enabled e st = true ->
  input st = [] /\ is_submission e = false /\
  (forall v, e <> Change v) /\ input (step e st) = [].
Proof.
  intros R S E. destruct (Inv_busy st (reachable_Inv st R) S) as [a P].
  assert (Ha : a ∈ pending st)
    by (rewrite P; by apply list_elem_of_singleton).
  destruct (reachable_pending st a R Ha) as (_ & _ & _ & _ & _ & I & _).
  split; [done|].
  destruct (step_cases st e R E)
    as [(S' & _)|(a' & _ & Sub & [->|[(data & ->)|(err & ->)]])];
    [congruence| | |]; (split; [done|]);
    (split; [intros v ->; simpl in E; by rewrite S in E|]); try done.
  by destruct (catch_projections (act_id a') err (setPending [] st))
    as (_ & _ & -> & _).
Qed.

Lemma nothing_typed_while_streaming_witness :
  let st := sample_waiting in
  let e := ClickStop in
  input st = [] /\ is_submission e = false /\
  (forall v, e <> Change v) /\ input (step e st) = [].
Proof.
  apply (nothing_typed_while_streaming sample_waiting ClickStop).
  - apply sample_waiting_reachable.
  - reflexivity.
  - reflexivity.
Defined.
